(** * ACME Order reconciliation: a shallow embedding of
      pkg/controller/acmeorders/sync.go

    The Go code is embedded function by function.  Collaborators that the
    controller only reaches through interfaces (the ACME client, the issuer
    helper, the Challenge lister and the typed clientset) are records of
    state transformers over an abstract outside world [W]; every call on one
    of them is logged in a trace, so that statements about "which external
    calls were made, and in which order" can be written down.  *)

From stdpp Require Import base option list strings gmap sorting pretty.

Local Open Scope string_scope.
Local Open Scope list_scope.

(** ** Data model *)

(** [cmapi.State] is a Go string type: the status string reported by the
    ACME server is converted to it verbatim. *)
Definition State : Type := string.

(** A reading of the wall clock ([metav1.Time]). *)
Definition Time : Type := Z.

(** Go's [error] values.  [fmt.Errorf] is kept unrendered (format string and
    arguments); [aggregate] is the error built by [utilerrors.NewAggregate];
    [External] stands for an error value made by code outside the package. *)
#[local] Set Warnings "-register-all".
Inductive error : Type :=
| External (msg : string)
| Errorf (format : string) (args : list (string + error))
| aggregate (errs : list error).
#[local] Set Warnings "register-all".

(** A Go [(value, error)] result: exactly one side is meaningful. *)
Definition result (A : Type) : Type := error + A.

(** Modelled from the spec: the struct declarations of package [cmapi]
    (pkg/apis/certmanager/v1alpha1) are not part of the sources at hand;
    the fields below are those sync.go reads or writes, with the shape
    given in the data model of the specification.  A pointer field that
    the code compares with [nil] is an [option]. *)
Module cmapi.

Module ObjectReference.
Record t := { Name : string; Kind : string }.
#[global] Instance eq_dec : EqDecision t.
Proof. solve_decision. Defined.
End ObjectReference.

Module HTTP01SolverConfig.
Record t := { Ingress : string; IngressClass : option string }.
#[global] Instance eq_dec : EqDecision t.
Proof. solve_decision. Defined.
End HTTP01SolverConfig.

Module DNS01SolverConfig.
Record t := { Provider : string }.
#[global] Instance eq_dec : EqDecision t.
Proof. solve_decision. Defined.
End DNS01SolverConfig.

Module SolverConfig.
Record t := {
  HTTP01 : option HTTP01SolverConfig.t;
  DNS01 : option DNS01SolverConfig.t }.
#[global] Instance eq_dec : EqDecision t.
Proof. solve_decision. Defined.
End SolverConfig.

Module DomainSolverConfig.
Record t := {
  Domains : list string;
  SolverConfig : SolverConfig.t }.
End DomainSolverConfig.

Module ChallengeSpec.
Record t := {
  AuthzURL : string;
  Type_ : string;
  URL : string;
  DNSName : string;
  Token : string;
  Key : string;
  Config : SolverConfig.t;
  Wildcard : bool;
  IssuerRef : ObjectReference.t }.
#[global] Instance eq_dec : EqDecision t.
Proof. solve_decision. Defined.
End ChallengeSpec.

Module OrderSpec.
Record t := {
  DNSNames : list string;
  CommonName : string;
  CSR : list Z;
  IssuerRef : ObjectReference.t;
  Config : list DomainSolverConfig.t }.
End OrderSpec.

(** [Challenges] is a Go slice that [reflect.DeepEqual] inspects: a nil
    slice ([None]) and an empty one ([Some []]) are told apart there. *)
Module OrderStatus.
Record t := {
  URL : string;
  FinalizeURL : string;
  CertificateURL : string;
  State : State;
  Challenges : option (list ChallengeSpec.t);
  FailureTime : option Time }.
#[global] Instance eq_dec : EqDecision t.
Proof. solve_decision. Defined.
End OrderStatus.

Module Order.
Record t := {
  Name : string;
  Namespace : string;
  Spec : OrderSpec.t;
  Status : OrderStatus.t }.
End Order.

Module OwnerReference.
Record t := {
  Kind : string;
  Name : string;
  Controller : bool;
  BlockOwnerDeletion : bool }.
End OwnerReference.

Module ObjectMeta.
Record t := {
  Name : string;
  Labels : gmap string string;
  OwnerReferences : list OwnerReference.t }.
End ObjectMeta.

Module ChallengeStatus.
Record t := { State : State }.
End ChallengeStatus.

Module Challenge.
Record t := {
  ObjectMeta : ObjectMeta.t;
  Spec : ChallengeSpec.t;
  Status : ChallengeStatus.t }.
End Challenge.

(** What [issuer.GetSpec().ACME] points to: the issuer's ACME
    capabilities. *)
Module ACMEIssuer.
Record t := {
  HTTP01 : option string;
  DNS01 : option string }.
End ACMEIssuer.

(** The [GenericIssuer] interface, reduced to the two getters used:
    [GetObjectMeta().Name] and [GetSpec().ACME]. *)
Module GenericIssuer.
Record t := {
  Name : string;
  ACME : option ACMEIssuer.t }.
End GenericIssuer.

End cmapi.

(** Modelled from the spec: the structs of the vendored ACME library
    (third_party/crypto/acme) are not part of the sources at hand; the
    fields are those sync.go reads, as listed for the transient
    Authorization in the data model of the specification. *)
Module acmeapi.

Module Challenge.
Record t := { Type_ : string; URL : string; Token : string }.
End Challenge.

Module AuthzID.
Record t := { Value : string }.
End AuthzID.

Module Authorization.
Record t := {
  URL : string;
  Identifier : AuthzID.t;
  Wildcard : bool;
  Challenges : list Challenge.t }.
End Authorization.

Module Order.
Record t := {
  Status : string;
  URL : string;
  FinalizeURL : string;
  CertificateURL : string;
  Authorizations : list string }.
End Order.

End acmeapi.

(** ** solverConfigurationForAuthorization *)

(** The key looked up in the solver configurations ([domainToFind]). *)
Definition domainToFind (authz : acmeapi.Authorization.t) : string :=
  let d := acmeapi.AuthzID.Value (acmeapi.Authorization.Identifier authz) in
  if acmeapi.Authorization.Wildcard authz then "*." +:+ d else d.

(** The inner [for _, dom := range d.Domains]: does it reach the [return]? *)
Fixpoint domainsHave (key : string) (doms : list string) : bool :=
  match doms with
  | [] => false
  | dom :: doms' =>
      if bool_decide (dom ≠ key) then domainsHave key doms' else true
  end.

(** The outer [for _, d := range cfgs]. *)
Fixpoint solverConfigurationLoop (key : string)
    (cfgs : list cmapi.DomainSolverConfig.t) : option cmapi.SolverConfig.t :=
  match cfgs with
  | [] => None
  | d :: cfgs' =>
      if domainsHave key (cmapi.DomainSolverConfig.Domains d)
      then Some (cmapi.DomainSolverConfig.SolverConfig d)
      else solverConfigurationLoop key cfgs'
  end.

Definition errConfigurationNotFound (key : string) : error :=
  Errorf "solver configuration for domain %q not found. Ensure you have configured a challenge mechanism using the certificate.spec.acme.config field"
         [inl key].

Definition solverConfigurationForAuthorization
    (cfgs : list cmapi.DomainSolverConfig.t)
    (authz : acmeapi.Authorization.t) : result cmapi.SolverConfig.t :=
  match solverConfigurationLoop (domainToFind authz) cfgs with
  | Some cfg => inr cfg
  | None => inl (errConfigurationNotFound (domainToFind authz))
  end.

(** ** Declarations the package imports *)

(** Modelled from the spec: the [State] constants of package [cmapi] are
    declared outside the sources at hand; their string values are left
    open.  The specification lists them as the values of [Status.State]. *)
Module cmapi_state.
Class Consts := {
  Unknown : State;
  Ready : State;
  Pending : State;
  Processing : State;
  Failed : State;
  Expired : State }.
End cmapi_state.

(** Modelled from the spec: package [acme] (pkg/acme) is outside the
    sources at hand.  The specification calls [IsFinalState] and
    [IsFailureState] external classification predicates on states. *)
Module acme.
Class Predicates := {
  IsFinalState : State → bool;
  IsFailureState : State → bool }.
End acme.

(** The pieces of k8s.io/apimachinery used by sync.go. *)
Module labels.
Record Requirement := {
  key : string;
  operator : string;
  strValues : list string }.

(** A selector is the list of its requirements. *)
Definition Selector : Type := list Requirement.

(** [labels.NewRequirement] validates the key and the values and may
    refuse them; the validation rules belong to apimachinery, so the
    constructor is left open. *)
Class Validation := {
  NewRequirement : string → string → list string → result Requirement }.
End labels.

Module selection.
Definition Equals : string := "=".
End selection.

Module utilerrors.
(** [NewAggregate] drops the nil entries of its argument; with nothing
    left it returns nil, otherwise the aggregate of what is left. *)
Definition NewAggregate (errlist : list (option error)) : option error :=
  match omap id errlist with
  | [] => None
  | errs => Some (aggregate errs)
  end.
End utilerrors.

(** ** External calls and the outside world *)

(** One entry per call that leaves the package through an interface. *)
Inductive Event : Type :=
| GetGenericIssuerCall (ref : cmapi.ObjectReference.t) (ns : string)
| ClientForIssuerCall (issuer : cmapi.GenericIssuer.t)
| CreateOrderCall (identifiers : list string)
| GetOrderCall (url : string)
| GetAuthorizationCall (url : string)
| FinalizeOrderCall (url : string) (csr : list Z)
| HTTP01ChallengeResponseCall (token : string)
| DNS01ChallengeRecordCall (token : string)
| ChallengesListCall (ns : string) (sel : labels.Selector)
| ChallengesCreateCall (ns : string) (ch : cmapi.Challenge.t)
| OrdersUpdateCall (ns : string) (o : cmapi.Order.t).

(** Which of these talk to the ACME server through the client. *)
Definition isACMEClientCall (ev : Event) : bool :=
  match ev with
  | CreateOrderCall _ | GetOrderCall _ | GetAuthorizationCall _
  | FinalizeOrderCall _ _ | HTTP01ChallengeResponseCall _
  | DNS01ChallengeRecordCall _ => true
  | _ => false
  end.

(** [acmecl.Interface]: the ACME client contract.  Every method may change
    the outside world (the server's state) and may fail. *)
Module acmecl.
Record Interface {W : Type} := {
  CreateOrder : list string → W → result acmeapi.Order.t * W;
  GetOrder : string → W → result acmeapi.Order.t * W;
  GetAuthorization : string → W → result acmeapi.Authorization.t * W;
  FinalizeOrder : string → list Z → W → result (list (list Z)) * W;
  HTTP01ChallengeResponse : string → W → result string * W;
  DNS01ChallengeRecord : string → W → result string * W }.
Arguments Interface : clear implicits.
End acmecl.

(** The collaborators reached through the [Controller] receiver:
    [c.helper.GetGenericIssuer], [acmeHelper.ClientForIssuer],
    [c.challengeLister.Challenges(ns).List],
    [c.CMClient...Challenges(ns).Create] and
    [c.CMClient...Orders(ns).Update]. *)
Record Controller {W : Type} := {
  helper_GetGenericIssuer :
    cmapi.ObjectReference.t → string → W → result cmapi.GenericIssuer.t * W;
  acmeHelper_ClientForIssuer :
    cmapi.GenericIssuer.t → W → result (acmecl.Interface W) * W;
  challengeLister_List :
    string → labels.Selector → W → result (list cmapi.Challenge.t) * W;
  CMClient_Challenges_Create :
    string → cmapi.Challenge.t → W → result cmapi.Challenge.t * W;
  CMClient_Orders_Update :
    string → cmapi.Order.t → W → result cmapi.Order.t * W }.
Arguments Controller : clear implicits.

(** [time.Now]: reading the clock of the outside world. *)
Module time.
Class Clock (W : Type) := Now : W → Time * W.
End time.

(** The state threaded through a run: the outside world and the log of the
    external calls made so far, oldest first. *)
Record St {W : Type} := { world : W; calls : list Event }.
Arguments St : clear implicits.
Arguments Build_St {W} _ _.

Definition M (W A : Type) : Type := St W → A * St W.

Definition ret {W A} (a : A) : M W A := λ st, (a, st).

Definition bind {W A B} (m : M W A) (k : A → M W B) : M W B :=
  λ st, let '(a, st') := m st in k a st'.

(** An external call: log it, then let the collaborator act on the world. *)
Definition call {W A} (ev : Event) (f : W → A * W) : M W A :=
  λ st, let '(a, w) := f (world st) in
        (a, {| world := w; calls := calls st ++ [ev] |}).

(** A clock read; not an external call. *)
Definition now {W} `{!time.Clock W} : M W Time :=
  λ st, let '(t, w) := time.Now (world st) in
        (t, {| world := w; calls := calls st |}).

Declare Scope go_scope.
Delimit Scope go_scope with go.
Notation "x <- m ;; k" := (bind m (λ x, k))
  (at level 100, m at next level, right associativity) : go_scope.
Local Open Scope go_scope.

(** Field assignments on the Order and its status. *)
Definition withStatus (o : cmapi.Order.t) (s : cmapi.OrderStatus.t)
    : cmapi.Order.t :=
  {| cmapi.Order.Name := cmapi.Order.Name o;
     cmapi.Order.Namespace := cmapi.Order.Namespace o;
     cmapi.Order.Spec := cmapi.Order.Spec o;
     cmapi.Order.Status := s |}.

Definition withChallenges (s : cmapi.OrderStatus.t)
    (chals : option (list cmapi.ChallengeSpec.t)) : cmapi.OrderStatus.t :=
  {| cmapi.OrderStatus.URL := cmapi.OrderStatus.URL s;
     cmapi.OrderStatus.FinalizeURL := cmapi.OrderStatus.FinalizeURL s;
     cmapi.OrderStatus.CertificateURL := cmapi.OrderStatus.CertificateURL s;
     cmapi.OrderStatus.State := cmapi.OrderStatus.State s;
     cmapi.OrderStatus.Challenges := chals;
     cmapi.OrderStatus.FailureTime := cmapi.OrderStatus.FailureTime s |}.

Section Sync.
Context {W : Type} {clock : time.Clock W}.
Context {consts : cmapi_state.Consts} {predicates : acme.Predicates}.
Context {validation : labels.Validation}.

Import cmapi_state.

(** *** setOrderState, setOrderStatus, syncOrderStatus *)

Definition setOrderState (o : cmapi.OrderStatus.t) (s : State)
    : M W cmapi.OrderStatus.t :=
  let o :=
    {| cmapi.OrderStatus.URL := cmapi.OrderStatus.URL o;
       cmapi.OrderStatus.FinalizeURL := cmapi.OrderStatus.FinalizeURL o;
       cmapi.OrderStatus.CertificateURL := cmapi.OrderStatus.CertificateURL o;
       cmapi.OrderStatus.State := s;
       cmapi.OrderStatus.Challenges := cmapi.OrderStatus.Challenges o;
       cmapi.OrderStatus.FailureTime := cmapi.OrderStatus.FailureTime o |} in
  if acme.IsFailureState (cmapi.OrderStatus.State o) then
    t <- now ;;
    ret {| cmapi.OrderStatus.URL := cmapi.OrderStatus.URL o;
           cmapi.OrderStatus.FinalizeURL := cmapi.OrderStatus.FinalizeURL o;
           cmapi.OrderStatus.CertificateURL :=
             cmapi.OrderStatus.CertificateURL o;
           cmapi.OrderStatus.State := cmapi.OrderStatus.State o;
           cmapi.OrderStatus.Challenges := cmapi.OrderStatus.Challenges o;
           cmapi.OrderStatus.FailureTime := Some t |}
  else ret o.

Definition setOrderStatus (o : cmapi.OrderStatus.t)
    (acmeOrder : acmeapi.Order.t) : M W cmapi.OrderStatus.t :=
  let cmState : State := acmeapi.Order.Status acmeOrder in
  o <- setOrderState o cmState ;;
  ret {| cmapi.OrderStatus.URL := acmeapi.Order.URL acmeOrder;
         cmapi.OrderStatus.FinalizeURL := acmeapi.Order.FinalizeURL acmeOrder;
         cmapi.OrderStatus.CertificateURL :=
           acmeapi.Order.CertificateURL acmeOrder;
         cmapi.OrderStatus.State := cmapi.OrderStatus.State o;
         cmapi.OrderStatus.Challenges := cmapi.OrderStatus.Challenges o;
         cmapi.OrderStatus.FailureTime := cmapi.OrderStatus.FailureTime o |}.

Definition syncOrderStatus (cl : acmecl.Interface W) (o : cmapi.Order.t)
    : M W (option error * cmapi.Order.t) :=
  let url := cmapi.OrderStatus.URL (cmapi.Order.Status o) in
  if bool_decide (url = "") then
    ret (Some (Errorf "order URL is blank - order has not been created yet" []), o)
  else
    r <- call (GetOrderCall url) (acmecl.GetOrder cl url) ;;
    match r with
    | inl err => ret (Some err, o)
    | inr acmeOrder =>
        s <- setOrderStatus (cmapi.Order.Status o) acmeOrder ;;
        ret (None, withStatus o s)
    end.

(** *** keyForChallenge *)

Definition keyForChallenge (cl : acmecl.Interface W)
    (challenge : acmeapi.Challenge.t) : M W (result string) :=
  let token := acmeapi.Challenge.Token challenge in
  if bool_decide (acmeapi.Challenge.Type_ challenge = "http-01") then
    call (HTTP01ChallengeResponseCall token)
         (acmecl.HTTP01ChallengeResponse cl token)
  else if bool_decide (acmeapi.Challenge.Type_ challenge = "dns-01") then
    call (DNS01ChallengeRecordCall token)
         (acmecl.DNS01ChallengeRecord cl token)
  else
    ret (inl (Errorf "unsupported challenge type %s"
                     [inl (acmeapi.Challenge.Type_ challenge)])).

(** *** challengeSpecForAuthorization *)

(** One round of [for _, ch := range authz.Challenges]: the [switch]
    either overwrites [challenge] with [ch] or leaves it. *)
Definition selectChallengeStep (cfg : cmapi.SolverConfig.t)
    (acmeSpec : cmapi.ACMEIssuer.t)
    (challenge : option acmeapi.Challenge.t) (ch : acmeapi.Challenge.t)
    : option acmeapi.Challenge.t :=
  if bool_decide (acmeapi.Challenge.Type_ ch = "http-01")
     && bool_decide (is_Some (cmapi.SolverConfig.HTTP01 cfg))
     && bool_decide (is_Some (cmapi.ACMEIssuer.HTTP01 acmeSpec))
  then Some ch
  else if bool_decide (acmeapi.Challenge.Type_ ch = "dns-01")
     && bool_decide (is_Some (cmapi.SolverConfig.DNS01 cfg))
     && bool_decide (is_Some (cmapi.ACMEIssuer.DNS01 acmeSpec))
  then Some ch
  else challenge.

Definition selectChallenge (cfg : cmapi.SolverConfig.t)
    (acmeSpec : cmapi.ACMEIssuer.t) (chs : list acmeapi.Challenge.t)
    : option acmeapi.Challenge.t :=
  fold_left (selectChallengeStep cfg acmeSpec) chs None.

Definition errNotACMEIssuer (issuer : cmapi.GenericIssuer.t) : error :=
  Errorf "issuer %q is not configured as an ACME Issuer. Cannot be used for creating ACME orders"
         [inl (cmapi.GenericIssuer.Name issuer)].

Definition errNoAcceptableChallenge (domain : string) : error :=
  Errorf "ACME server does not allow selected challenge type or no provider is configured for domain %q"
         [inl domain].

Definition challengeSpecForAuthorization (cl : acmecl.Interface W)
    (issuer : cmapi.GenericIssuer.t) (o : cmapi.Order.t)
    (authz : acmeapi.Authorization.t) : M W (result cmapi.ChallengeSpec.t) :=
  match solverConfigurationForAuthorization
          (cmapi.OrderSpec.Config (cmapi.Order.Spec o)) authz with
  | inl err => ret (inl err)
  | inr cfg =>
      match cmapi.GenericIssuer.ACME issuer with
      | None => ret (inl (errNotACMEIssuer issuer))
      | Some acmeSpec =>
          let domain :=
            acmeapi.AuthzID.Value (acmeapi.Authorization.Identifier authz) in
          match selectChallenge cfg acmeSpec
                  (acmeapi.Authorization.Challenges authz) with
          | None => ret (inl (errNoAcceptableChallenge domain))
          | Some challenge =>
              r <- keyForChallenge cl challenge ;;
              match r with
              | inl err => ret (inl err)
              | inr key =>
                  ret (inr
                    {| cmapi.ChallengeSpec.AuthzURL :=
                         acmeapi.Authorization.URL authz;
                       cmapi.ChallengeSpec.Type_ :=
                         acmeapi.Challenge.Type_ challenge;
                       cmapi.ChallengeSpec.URL :=
                         acmeapi.Challenge.URL challenge;
                       cmapi.ChallengeSpec.DNSName := domain;
                       cmapi.ChallengeSpec.Token :=
                         acmeapi.Challenge.Token challenge;
                       cmapi.ChallengeSpec.Key := key;
                       cmapi.ChallengeSpec.Config := cfg;
                       cmapi.ChallengeSpec.Wildcard :=
                         acmeapi.Authorization.Wildcard authz;
                       cmapi.ChallengeSpec.IssuerRef :=
                         cmapi.OrderSpec.IssuerRef (cmapi.Order.Spec o) |})
              end
          end
      end
  end.

(** *** createOrder *)

(** [sets.NewString(o.Spec.DNSNames...)], the optional [Insert] of the
    common name, and [List()], which returns the members sorted. *)
Definition identifierSet (o : cmapi.Order.t) : gset string :=
  let s : gset string :=
    list_to_set (cmapi.OrderSpec.DNSNames (cmapi.Order.Spec o)) in
  if bool_decide (cmapi.OrderSpec.CommonName (cmapi.Order.Spec o) ≠ "")
  then s ∪ {[ cmapi.OrderSpec.CommonName (cmapi.Order.Spec o) ]}
  else s.

Definition sets_List (s : gset string) : list string :=
  merge_sort (λ a b, String.leb a b) (elements s).

(** The loop over [acmeOrder.Authorizations]: the first failing fetch or
    spec build ends it with that error; otherwise [chals] is filled in
    the order of the authorizations. *)
Fixpoint createOrderLoop (cl : acmecl.Interface W)
    (issuer : cmapi.GenericIssuer.t) (o : cmapi.Order.t)
    (authzURLs : list string) : M W (result (list cmapi.ChallengeSpec.t)) :=
  match authzURLs with
  | [] => ret (inr [])
  | authzURL :: rest =>
      r <- call (GetAuthorizationCall authzURL)
                (acmecl.GetAuthorization cl authzURL) ;;
      match r with
      | inl err => ret (inl err)
      | inr authz =>
          r <- challengeSpecForAuthorization cl issuer o authz ;;
          match r with
          | inl err =>
              ret (inl (Errorf "Error constructing Challenge resource for Authorization: %v"
                               [inr err]))
          | inr cs =>
              r <- createOrderLoop cl issuer o rest ;;
              match r with
              | inl err => ret (inl err)
              | inr chals => ret (inr (cs :: chals))
              end
          end
      end
  end.

Definition createOrder (cl : acmecl.Interface W)
    (issuer : cmapi.GenericIssuer.t) (o : cmapi.Order.t)
    : M W (option error * cmapi.Order.t) :=
  if bool_decide (cmapi.OrderStatus.URL (cmapi.Order.Status o) ≠ "") then
    ret (Some (Errorf "refusing to recreate a new order for Order %q. Please create a new Order resource to initiate a new order"
                      [inl (cmapi.Order.Name o)]), o)
  else
    let identifiers := sets_List (identifierSet o) in
    r <- call (CreateOrderCall identifiers)
              (acmecl.CreateOrder cl identifiers) ;;
    match r with
    | inl err =>
        ret (Some (Errorf "error creating new order: %v" [inr err]), o)
    | inr acmeOrder =>
        s <- setOrderStatus (cmapi.Order.Status o) acmeOrder ;;
        let o := withStatus o s in
        r <- createOrderLoop cl issuer o
               (acmeapi.Order.Authorizations acmeOrder) ;;
        match r with
        | inl err => ret (Some err, o)
        | inr chals =>
            ret (None,
                 withStatus o (withChallenges (cmapi.Order.Status o)
                                              (Some chals)))
        end
    end.

(** *** buildChallenge and the label selector *)

Definition orderNameLabelKey : string := "acme.cert-manager.io/order-name".

Definition challengeLabelsForOrder (o : cmapi.Order.t)
    : gmap string string :=
  {[ orderNameLabelKey := cmapi.Order.Name o ]}.

(** [metav1.NewControllerRef(o, orderGvk)]. *)
Definition NewControllerRef (o : cmapi.Order.t) : cmapi.OwnerReference.t :=
  {| cmapi.OwnerReference.Kind := "Order";
     cmapi.OwnerReference.Name := cmapi.Order.Name o;
     cmapi.OwnerReference.Controller := true;
     cmapi.OwnerReference.BlockOwnerDeletion := true |}.

Definition buildChallenge (i : nat) (o : cmapi.Order.t)
    (chalSpec : cmapi.ChallengeSpec.t) : cmapi.Challenge.t :=
  {| cmapi.Challenge.ObjectMeta :=
       {| cmapi.ObjectMeta.Name := cmapi.Order.Name o +:+ "-" +:+ pretty i;
          cmapi.ObjectMeta.Labels := challengeLabelsForOrder o;
          cmapi.ObjectMeta.OwnerReferences := [NewControllerRef o] |};
     cmapi.Challenge.Spec := chalSpec;
     cmapi.Challenge.Status := {| cmapi.ChallengeStatus.State := "" |} |}.

(** [for k, v := range lbls]: one requirement per label, the first
    refusal ends the loop. *)
Fixpoint requirementsFor (lbls : list (string * string))
    : result (list labels.Requirement) :=
  match lbls with
  | [] => inr []
  | (k, v) :: rest =>
      match labels.NewRequirement k selection.Equals [v] with
      | inl err => inl err
      | inr req =>
          match requirementsFor rest with
          | inl err => inl err
          | inr reqs => inr (req :: reqs)
          end
      end
  end.

Definition challengeSelectorForOrder (o : cmapi.Order.t)
    : result labels.Selector :=
  requirementsFor (map_to_list (challengeLabelsForOrder o)).

(** *** The body of Sync for Pending and Processing orders *)

(** The inner [for _, ch := range existingChallenges]: [true] when the
    loop leaves [create] set. *)
Fixpoint createWanted (s : cmapi.ChallengeSpec.t)
    (existingChallenges : list cmapi.Challenge.t) : bool :=
  match existingChallenges with
  | [] => true
  | ch :: rest =>
      if bool_decide (cmapi.ChallengeSpec.DNSName s
                      = cmapi.ChallengeSpec.DNSName (cmapi.Challenge.Spec ch))
      then false
      else createWanted s rest
  end.

(** [for i, s := range o.Status.Challenges], from index [i] on;
    [specsToCreate] is the Go map filled so far. *)
Fixpoint specsToCreateLoop (existingChallenges : list cmapi.Challenge.t)
    (i : nat) (planned : list cmapi.ChallengeSpec.t)
    (specsToCreate : gmap nat cmapi.ChallengeSpec.t)
    : gmap nat cmapi.ChallengeSpec.t :=
  match planned with
  | [] => specsToCreate
  | s :: rest =>
      if createWanted s existingChallenges
      then specsToCreateLoop existingChallenges (S i) rest
             (<[ i := s ]> specsToCreate)
      else specsToCreate
  end.

Definition specsToCreate (existingChallenges : list cmapi.Challenge.t)
    (o : cmapi.Order.t) : gmap nat cmapi.ChallengeSpec.t :=
  specsToCreateLoop existingChallenges 0
    (default [] (cmapi.OrderStatus.Challenges (cmapi.Order.Status o))) ∅.

(** [for i, spec := range specsToCreate]: every creation is attempted,
    failures are collected in [errs], successes join
    [existingChallenges]. *)
Fixpoint createChallenges (c : Controller W) (o : cmapi.Order.t)
    (todo : list (nat * cmapi.ChallengeSpec.t))
    (errs : list error) (existingChallenges : list cmapi.Challenge.t)
    : M W (list error * list cmapi.Challenge.t) :=
  match todo with
  | [] => ret (errs, existingChallenges)
  | (i, spec) :: rest =>
      let ch := buildChallenge i o spec in
      r <- call (ChallengesCreateCall (cmapi.Order.Namespace o) ch)
                (CMClient_Challenges_Create c (cmapi.Order.Namespace o) ch) ;;
      match r with
      | inl err => createChallenges c o rest (errs ++ [err]) existingChallenges
      | inr ch =>
          createChallenges c o rest errs (existingChallenges ++ [ch])
      end
  end.

(** The readiness scan: [(recheckOrderStatus, anyChallengesFailed)]. *)
Definition readinessStep (acc : bool * bool) (ch : cmapi.Challenge.t)
    : bool * bool :=
  let s := cmapi.ChallengeStatus.State (cmapi.Challenge.Status ch) in
  if bool_decide (s = Pending) || bool_decide (s = Processing)
  then (false, acc.2)
  else if bool_decide (s = Failed) || bool_decide (s = Expired)
  then (acc.1, true)
  else acc.

Definition readiness (existingChallenges : list cmapi.Challenge.t)
    : bool * bool :=
  fold_left readinessStep existingChallenges (true, false).

(** Lines 115 to 189 of Sync: what follows the [switch] for a Pending or
    Processing order.  Go ranges over the map [specsToCreate] in an
    unspecified order; the embedding takes the order of [map_to_list]. *)
Definition syncChallenges (c : Controller W) (cl : acmecl.Interface W)
    (o : cmapi.Order.t) : M W (option error * cmapi.Order.t) :=
  match challengeSelectorForOrder o with
  | inl err => ret (Some err, o)
  | inr sel =>
      r <- call (ChallengesListCall (cmapi.Order.Namespace o) sel)
                (challengeLister_List c (cmapi.Order.Namespace o) sel) ;;
      match r with
      | inl err => ret (Some err, o)
      | inr existingChallenges =>
          r <- createChallenges c o
                 (map_to_list (specsToCreate existingChallenges o))
                 [] existingChallenges ;;
          let '(errs, existingChallenges) := r in
          match utilerrors.NewAggregate (Some <$> errs) with
          | Some err =>
              ret (Some (Errorf "error ensuring Challenge resources for Order: %v"
                                [inr err]), o)
          | None =>
              let '(recheckOrderStatus, anyChallengesFailed) :=
                readiness existingChallenges in
              if negb recheckOrderStatus && negb anyChallengesFailed
              then ret (None, o)
              else syncOrderStatus cl o
          end
      end
  end.

(** *** Sync *)

(** Sync up to its [return]: the error to return and the private copy of
    the Order as the deferred function will see it. *)
Definition syncBody (c : Controller W) (o : cmapi.Order.t)
    : M W (option error * cmapi.Order.t) :=
  let issuerRef := cmapi.OrderSpec.IssuerRef (cmapi.Order.Spec o) in
  r <- call (GetGenericIssuerCall issuerRef (cmapi.Order.Namespace o))
            (helper_GetGenericIssuer c issuerRef (cmapi.Order.Namespace o)) ;;
  match r with
  | inl err =>
      ret (Some (Errorf "error reading (cluster)issuer %q: %v"
                        [inl (cmapi.ObjectReference.Name issuerRef); inr err]),
           o)
  | inr genericIssuer =>
      r <- call (ClientForIssuerCall genericIssuer)
                (acmeHelper_ClientForIssuer c genericIssuer) ;;
      match r with
      | inl err => ret (Some err, o)
      | inr cl =>
          let state := cmapi.OrderStatus.State (cmapi.Order.Status o) in
          if bool_decide (cmapi.OrderStatus.URL (cmapi.Order.Status o) = "")
          then createOrder cl genericIssuer o
          else if acme.IsFinalState state then ret (None, o)
          else if bool_decide (state = Unknown) then
            r <- syncOrderStatus cl o ;;
            match r with
            | (Some err, o) => ret (Some err, o)
            | (None, o) =>
                ret (Some (Errorf "updated unknown order state. Retrying processing after applying back-off" []),
                     o)
            end
          else if bool_decide (state = Ready) then
            fin <- call (FinalizeOrderCall
                           (cmapi.OrderStatus.FinalizeURL (cmapi.Order.Status o))
                           (cmapi.OrderSpec.CSR (cmapi.Order.Spec o)))
                        (acmecl.FinalizeOrder cl
                           (cmapi.OrderStatus.FinalizeURL (cmapi.Order.Status o))
                           (cmapi.OrderSpec.CSR (cmapi.Order.Spec o))) ;;
            r <- syncOrderStatus cl o ;;
            match r with
            | (Some errUpdate, o) =>
                ret (Some (Errorf "error syncing order status: %v"
                                  [inr errUpdate]), o)
            | (None, o) =>
                match fin with
                | inl err =>
                    ret (Some (Errorf "error finalizing order: %v" [inr err]),
                         o)
                | inr _ => ret (None, o)
                end
            end
          else if bool_decide (state = Pending)
                  || bool_decide (state = Processing)
          then syncChallenges c cl o
          else ret (Some (Errorf "unknown order state %q" [inl state]), o)
      end
  end.

(** The deferred function: persist the status when it changed; the
    update's error reaches the caller only inside the aggregate built
    when [err] is already set. *)
Definition syncDeferred (c : Controller W) (oldOrder : cmapi.Order.t)
    (err : option error) (o : cmapi.Order.t) : M W (option error) :=
  if bool_decide (cmapi.Order.Status oldOrder = cmapi.Order.Status o)
  then ret err
  else
    r <- call (OrdersUpdateCall (cmapi.Order.Namespace o) o)
              (CMClient_Orders_Update c (cmapi.Order.Namespace o) o) ;;
    let updateErr := match r with inl e => Some e | inr _ => None end in
    match err with
    | Some e => ret (utilerrors.NewAggregate [Some e; updateErr])
    | None => ret None
    end.

Definition Sync (c : Controller W) (o : cmapi.Order.t) : M W (option error) :=
  let oldOrder := o in
  r <- syncBody c o ;;
  let '(err, o) := r in
  syncDeferred c oldOrder err o.

End Sync.

(** ** Vocabulary of the specification *)

(** The specification's condition on an offered option: its type is enabled
    in the matched solver configuration and in the issuer's capabilities. *)
Definition enabledInBoth (cfg : cmapi.SolverConfig.t)
    (acmeSpec : cmapi.ACMEIssuer.t) (ch : acmeapi.Challenge.t) : Prop :=
  (acmeapi.Challenge.Type_ ch = "http-01"
   ∧ is_Some (cmapi.SolverConfig.HTTP01 cfg)
   ∧ is_Some (cmapi.ACMEIssuer.HTTP01 acmeSpec))
  ∨ (acmeapi.Challenge.Type_ ch = "dns-01"
     ∧ is_Some (cmapi.SolverConfig.DNS01 cfg)
     ∧ is_Some (cmapi.ACMEIssuer.DNS01 acmeSpec)).

(** The specification's test on a planned entry: an existing Challenge
    with the same DNS name is found. *)
Definition hasExistingChallenge (existingChallenges : list cmapi.Challenge.t)
    (s : cmapi.ChallengeSpec.t) : Prop :=
  ∃ ch, ch ∈ existingChallenges
        ∧ cmapi.ChallengeSpec.DNSName s
          = cmapi.ChallengeSpec.DNSName (cmapi.Challenge.Spec ch).

(** Events that create a Challenge resource. *)
Definition isChallengeCreate (ev : Event) : bool :=
  match ev with ChallengesCreateCall _ _ => true | _ => false end.

(** "Some authorization fetch or challenge-spec build fails": walking the
    authorization URLs in order from state [st], the first fetch or build
    that fails does so with error [err], leaving state [st']. *)
Inductive authorizationFails {W : Type} (cl : acmecl.Interface W)
    (issuer : cmapi.GenericIssuer.t) (o : cmapi.Order.t)
    : list string → St W → error → St W → Prop :=
| fetchFails authzURL rest st err w :
    acmecl.GetAuthorization cl authzURL (world st) = (inl err, w) →
    authorizationFails cl issuer o (authzURL :: rest) st err
      {| world := w; calls := calls st ++ [GetAuthorizationCall authzURL] |}
| buildFails authzURL rest st authz w err st' :
    acmecl.GetAuthorization cl authzURL (world st) = (inr authz, w) →
    challengeSpecForAuthorization cl issuer o authz
      {| world := w; calls := calls st ++ [GetAuthorizationCall authzURL] |}
    = (inl err, st') →
    authorizationFails cl issuer o (authzURL :: rest) st
      (Errorf "Error constructing Challenge resource for Authorization: %v"
              [inr err]) st'
| laterFails authzURL rest st authz w cs st' err st'' :
    acmecl.GetAuthorization cl authzURL (world st) = (inr authz, w) →
    challengeSpecForAuthorization cl issuer o authz
      {| world := w; calls := calls st ++ [GetAuthorizationCall authzURL] |}
    = (inr cs, st') →
    authorizationFails cl issuer o rest st' err st'' →
    authorizationFails cl issuer o (authzURL :: rest) st err st''.

(** ** A concrete world for the examples *)

(** The outside world is reduced to a clock that ticks at every reading;
    the collaborators answer from fixed tables. *)
Module Fixture.

Definition World : Type := nat.

Definition clock : time.Clock World := λ w, (Z.of_nat w, S w).

Definition consts : cmapi_state.Consts :=
  {| cmapi_state.Unknown := "";
     cmapi_state.Ready := "ready";
     cmapi_state.Pending := "pending";
     cmapi_state.Processing := "processing";
     cmapi_state.Failed := "failed";
     cmapi_state.Expired := "expired" |}.

Definition predicates : acme.Predicates :=
  {| acme.IsFinalState s :=
       bool_decide (s ∈ ["valid"; "invalid"; "failed"; "expired"]);
     acme.IsFailureState s :=
       bool_decide (s ∈ ["invalid"; "failed"; "expired"]) |}.

Definition validation : labels.Validation :=
  {| labels.NewRequirement k op vs :=
       inr {| labels.key := k; labels.operator := op;
              labels.strValues := vs |} |}.

Definition cfgBoth : cmapi.SolverConfig.t :=
  {| cmapi.SolverConfig.HTTP01 :=
       Some {| cmapi.HTTP01SolverConfig.Ingress := "";
               cmapi.HTTP01SolverConfig.IngressClass := Some "nginx" |};
     cmapi.SolverConfig.DNS01 :=
       Some {| cmapi.DNS01SolverConfig.Provider := "clouddns" |} |}.

Definition cfgDNS : cmapi.SolverConfig.t :=
  {| cmapi.SolverConfig.HTTP01 := None;
     cmapi.SolverConfig.DNS01 :=
       Some {| cmapi.DNS01SolverConfig.Provider := "clouddns" |} |}.

Definition domainConfigs : list cmapi.DomainSolverConfig.t :=
  [ {| cmapi.DomainSolverConfig.Domains := ["a.example.com"];
       cmapi.DomainSolverConfig.SolverConfig := cfgDNS |};
    {| cmapi.DomainSolverConfig.Domains := ["*.example.com"; "example.com"];
       cmapi.DomainSolverConfig.SolverConfig := cfgBoth |};
    {| cmapi.DomainSolverConfig.Domains := ["*.example.com"];
       cmapi.DomainSolverConfig.SolverConfig := cfgDNS |} ].

Definition issuerRef : cmapi.ObjectReference.t :=
  {| cmapi.ObjectReference.Name := "letsencrypt";
     cmapi.ObjectReference.Kind := "Issuer" |}.

Definition acmeBoth : cmapi.ACMEIssuer.t :=
  {| cmapi.ACMEIssuer.HTTP01 := Some "http01";
     cmapi.ACMEIssuer.DNS01 := Some "dns01" |}.

Definition issuer : cmapi.GenericIssuer.t :=
  {| cmapi.GenericIssuer.Name := "letsencrypt";
     cmapi.GenericIssuer.ACME := Some acmeBoth |}.

Definition dns01 : acmeapi.Challenge.t :=
  {| acmeapi.Challenge.Type_ := "dns-01";
     acmeapi.Challenge.URL := "https://acme.test/chal/1";
     acmeapi.Challenge.Token := "tok-dns" |}.

Definition http01 : acmeapi.Challenge.t :=
  {| acmeapi.Challenge.Type_ := "http-01";
     acmeapi.Challenge.URL := "https://acme.test/chal/2";
     acmeapi.Challenge.Token := "tok-http" |}.

Definition authz (wildcard : bool) : acmeapi.Authorization.t :=
  {| acmeapi.Authorization.URL := "https://acme.test/authz/1";
     acmeapi.Authorization.Identifier :=
       {| acmeapi.AuthzID.Value := "example.com" |};
     acmeapi.Authorization.Wildcard := wildcard;
     acmeapi.Authorization.Challenges := [dns01; http01] |}.

Definition acmeOrder (status url : string) (authzURLs : list string)
    : acmeapi.Order.t :=
  {| acmeapi.Order.Status := status;
     acmeapi.Order.URL := url;
     acmeapi.Order.FinalizeURL := url +:+ "/finalize";
     acmeapi.Order.CertificateURL := "";
     acmeapi.Order.Authorizations := authzURLs |}.

(** A client whose server reports [status] for every order and lists
    [authzURLs] as its authorizations, of which it can serve the first
    only; [finalizeOK] and [getOK] switch the two calls between success
    and failure. *)
Definition client (status : string) (authzURLs : list string)
    (finalizeOK getOK : bool) : acmecl.Interface World :=
  {| acmecl.CreateOrder ids w :=
       (inr (acmeOrder "pending" "https://acme.test/order/1" authzURLs), w);
     acmecl.GetOrder url w :=
       if getOK then (inr (acmeOrder status url authzURLs), w)
       else (inl (External "get order: timeout"), w);
     acmecl.GetAuthorization url w :=
       if bool_decide (url = "https://acme.test/authz/1")
       then (inr (authz false), w)
       else (inl (External "authorization not found"), w);
     acmecl.FinalizeOrder url csr w :=
       if finalizeOK then (inr [[48%Z; 130%Z]], w)
       else (inl (External "finalize: bad CSR"), w);
     acmecl.HTTP01ChallengeResponse token w :=
       (inr (token +:+ ".thumbprint"), w);
     acmecl.DNS01ChallengeRecord token w := (inr ("txt-" +:+ token), w) |}.

Definition controller (issuerOK updateOK : bool)
    (cl : acmecl.Interface World) (existing : list cmapi.Challenge.t)
    : Controller World :=
  {| helper_GetGenericIssuer ref ns w :=
       if issuerOK then (inr issuer, w)
       else (inl (External "issuer not found"), w);
     acmeHelper_ClientForIssuer iss w := (inr cl, w);
     challengeLister_List ns sel w := (inr existing, w);
     CMClient_Challenges_Create ns ch w := (inr ch, w);
     CMClient_Orders_Update ns o w :=
       if updateOK then (inr o, w)
       else (inl (External "update conflict"), w) |}.

Definition status (url : string) (state : State)
    (challenges : option (list cmapi.ChallengeSpec.t))
    (failureTime : option Time) : cmapi.OrderStatus.t :=
  {| cmapi.OrderStatus.URL := url;
     cmapi.OrderStatus.FinalizeURL :=
       if bool_decide (url = "") then "" else url +:+ "/finalize";
     cmapi.OrderStatus.CertificateURL := "";
     cmapi.OrderStatus.State := state;
     cmapi.OrderStatus.Challenges := challenges;
     cmapi.OrderStatus.FailureTime := failureTime |}.

Definition order (s : cmapi.OrderStatus.t) : cmapi.Order.t :=
  {| cmapi.Order.Name := "example-order";
     cmapi.Order.Namespace := "default";
     cmapi.Order.Spec :=
       {| cmapi.OrderSpec.DNSNames := ["example.com"; "a.example.com"];
          cmapi.OrderSpec.CommonName := "example.com";
          cmapi.OrderSpec.CSR := [48%Z; 130%Z];
          cmapi.OrderSpec.IssuerRef := issuerRef;
          cmapi.OrderSpec.Config := domainConfigs |};
     cmapi.Order.Status := s |}.

Definition spec (dnsName : string) : cmapi.ChallengeSpec.t :=
  {| cmapi.ChallengeSpec.AuthzURL := "https://acme.test/authz/1";
     cmapi.ChallengeSpec.Type_ := "http-01";
     cmapi.ChallengeSpec.URL := "https://acme.test/chal/2";
     cmapi.ChallengeSpec.DNSName := dnsName;
     cmapi.ChallengeSpec.Token := "tok-http";
     cmapi.ChallengeSpec.Key := "tok-http.thumbprint";
     cmapi.ChallengeSpec.Config := cfgBoth;
     cmapi.ChallengeSpec.Wildcard := false;
     cmapi.ChallengeSpec.IssuerRef := issuerRef |}.

Definition challenge (dnsName : string) (state : State)
    : cmapi.Challenge.t :=
  {| cmapi.Challenge.ObjectMeta :=
       {| cmapi.ObjectMeta.Name := "example-order-0";
          cmapi.ObjectMeta.Labels := ∅;
          cmapi.ObjectMeta.OwnerReferences := [] |};
     cmapi.Challenge.Spec := spec dnsName;
     cmapi.Challenge.Status := {| cmapi.ChallengeStatus.State := state |} |}.

Definition authzURLs2 : list string :=
  ["https://acme.test/authz/1"; "https://acme.test/authz/2"].

Definition st0 : St World := {| world := 7%nat; calls := [] |}.

Definition runSync (c : Controller World) (o : cmapi.Order.t)
    : M World (option error) :=
  @Sync World clock consts predicates validation c o.

End Fixture.

(** ** Vocabulary for the further properties *)

(** Calls that belong to the authorization walk of createOrder: fetching
    an authorization and computing a proof value. *)
Definition isAuthorizationWork (ev : Event) : bool :=
  match ev with
  | GetAuthorizationCall _ | HTTP01ChallengeResponseCall _
  | DNS01ChallengeRecordCall _ => true
  | _ => false
  end.

(** The status update issued by the deferred function of Sync. *)
Definition isOrdersUpdate (ev : Event) : bool :=
  match ev with OrdersUpdateCall _ _ => true | _ => false end.

(** A run from [st] to [st'] only appended calls that satisfy [P]. *)
Definition callsExtend {W : Type} (P : Event → bool) (st st' : St W) : Prop :=
  ∃ evs, calls st' = calls st ++ evs ∧ Forall (λ ev, P ev = true) evs.

(** A Challenge whose state keeps the Order waiting. *)
Definition challengeActive `{!cmapi_state.Consts} (ch : cmapi.Challenge.t)
    : Prop :=
  cmapi.ChallengeStatus.State (cmapi.Challenge.Status ch)
    = cmapi_state.Pending
  ∨ cmapi.ChallengeStatus.State (cmapi.Challenge.Status ch)
    = cmapi_state.Processing.

(** A Challenge whose state makes the Order ask the server again. *)
Definition challengeFailed `{!cmapi_state.Consts} (ch : cmapi.Challenge.t)
    : Prop :=
  cmapi.ChallengeStatus.State (cmapi.Challenge.Status ch)
    = cmapi_state.Failed
  ∨ cmapi.ChallengeStatus.State (cmapi.Challenge.Status ch)
    = cmapi_state.Expired.

(** Any call but the creation of a Challenge. *)
Definition notChallengeCreate (ev : Event) : bool :=
  negb (isChallengeCreate ev).

(** Two Orders that differ at most in their status. *)
Definition sameObject (o o' : cmapi.Order.t) : Prop :=
  cmapi.Order.Name o' = cmapi.Order.Name o
  ∧ cmapi.Order.Namespace o' = cmapi.Order.Namespace o
  ∧ cmapi.Order.Spec o' = cmapi.Order.Spec o.

(** ** More of the concrete world *)

Module MoreFixture.


Definition selector : labels.Selector :=
  [ {| labels.key := "acme.cert-manager.io/order-name";
       labels.operator := "=";
       labels.strValues := ["example-order"] |} ].

Definition pendingOrder (planned : list cmapi.ChallengeSpec.t)
    : cmapi.Order.t :=
  Fixture.order
    (Fixture.status "https://acme.test/order/1" "pending" (Some planned) None).

Definition lookups : list Event :=
  [GetGenericIssuerCall Fixture.issuerRef "default";
   ClientForIssuerCall Fixture.issuer].

End MoreFixture.

(** * Properties *)

(** ** The solver configuration lookup *)

Lemma domainsHave_elem_of (key : string) (doms : list string) :
  domainsHave key doms = true ↔ key ∈ doms.
Proof.
  induction doms as [|dom doms IH]; simpl.
  - split; [discriminate | by intros ?%elem_of_nil].
  - rewrite elem_of_cons. case_bool_decide as Hne.
    + rewrite IH. split; [by right|]. by intros [->|?].
    + split; [|done]. intros _. by left.
Qed.

Lemma solverConfigurationLoop_Some key cfgs cfg :
  solverConfigurationLoop key cfgs = Some cfg →
  ∃ i d, cfgs !! i = Some d
         ∧ key ∈ cmapi.DomainSolverConfig.Domains d
         ∧ cfg = cmapi.DomainSolverConfig.SolverConfig d
         ∧ ∀ j d', (j < i)%nat → cfgs !! j = Some d' →
                   key ∉ cmapi.DomainSolverConfig.Domains d'.
Proof.
  induction cfgs as [|d cfgs IH]; simpl; [discriminate|].
  destruct (domainsHave key (cmapi.DomainSolverConfig.Domains d)) eqn:Hd.
  - intros [= <-]. exists 0%nat, d. apply domainsHave_elem_of in Hd.
    repeat split; [done|]. intros j d' Hj. lia.
  - intros (i & d0 & Hi & Hin & -> & Hbefore)%IH.
    exists (S i), d0. repeat split; [done..|].
    intros [|j] d' Hj; simpl.
    + intros [= <-]. rewrite <- domainsHave_elem_of. congruence.
    + apply Hbefore. lia.
Qed.

Lemma solverConfigurationLoop_None key cfgs :
  solverConfigurationLoop key cfgs = None →
  ∀ d, d ∈ cfgs → key ∉ cmapi.DomainSolverConfig.Domains d.
Proof.
  induction cfgs as [|d cfgs IH]; simpl; [by intros _ d ?%elem_of_nil|].
  destruct (domainsHave key (cmapi.DomainSolverConfig.Domains d)) eqn:Hd;
    [discriminate|].
  intros Hnone d' [->|Hin]%elem_of_cons; [|by apply IH].
  rewrite <- domainsHave_elem_of. congruence.
Qed.

(** Claim C7.  The lookup key is the authorization's identifier value,
    prefixed with "*." exactly when the authorization is a wildcard one.
    The domain solver configurations are scanned in order: a successful
    lookup returns the solver configuration of the first entry whose
    domain list contains the key (no earlier entry contains it); the lookup
    fails, with the configuration-not-found error for that key, exactly
    when no entry contains the key. *)
Theorem solverConfigurationForAuthorization_first_match
    (cfgs : list cmapi.DomainSolverConfig.t) (authz : acmeapi.Authorization.t) :
  let value := acmeapi.AuthzID.Value (acmeapi.Authorization.Identifier authz) in
  let key := if acmeapi.Authorization.Wildcard authz
             then "*." +:+ value else value in
  match solverConfigurationForAuthorization cfgs authz with
  | inr cfg =>
      ∃ i d, cfgs !! i = Some d
             ∧ key ∈ cmapi.DomainSolverConfig.Domains d
             ∧ cfg = cmapi.DomainSolverConfig.SolverConfig d
             ∧ ∀ j d', (j < i)%nat → cfgs !! j = Some d' →
                       key ∉ cmapi.DomainSolverConfig.Domains d'
  | inl err =>
      err = errConfigurationNotFound key
      ∧ ∀ d, d ∈ cfgs → key ∉ cmapi.DomainSolverConfig.Domains d
  end.
Proof.
  intros value key. unfold solverConfigurationForAuthorization.
  change (domainToFind authz) with key.
  destruct (solverConfigurationLoop key cfgs) as [cfg|] eqn:Hloop.
  - by apply solverConfigurationLoop_Some.
  - split; [done|]. by apply solverConfigurationLoop_None.
Qed.

Section Properties.
Context {W : Type} {clock : time.Clock W}.
Context {consts : cmapi_state.Consts} {predicates : acme.Predicates}.
Context {validation : labels.Validation}.
Import cmapi_state.

(** Unfolding the monad at a state. *)
Lemma bind_eq {A B} (m : M W A) (k : A → M W B) st :
  bind m k st = k (m st).1 (m st).2.
Proof. unfold bind. by destruct (m st). Qed.

Lemma call_eq {A} ev (f : W → A * W) st :
  call ev f st
  = ((f (world st)).1,
     {| world := (f (world st)).2; calls := calls st ++ [ev] |}).
Proof. unfold call. by destruct (f (world st)). Qed.

Lemma now_eq st :
  now st = ((time.Now (world st)).1,
            {| world := (time.Now (world st)).2; calls := calls st |}).
Proof. unfold now. by destruct (time.Now (world st)). Qed.

(** setOrderState in its two cases. *)
Lemma setOrderState_failure o s st :
  acme.IsFailureState s = true →
  setOrderState o s st
  = ({| cmapi.OrderStatus.URL := cmapi.OrderStatus.URL o;
        cmapi.OrderStatus.FinalizeURL := cmapi.OrderStatus.FinalizeURL o;
        cmapi.OrderStatus.CertificateURL := cmapi.OrderStatus.CertificateURL o;
        cmapi.OrderStatus.State := s;
        cmapi.OrderStatus.Challenges := cmapi.OrderStatus.Challenges o;
        cmapi.OrderStatus.FailureTime := Some (time.Now (world st)).1 |},
     {| world := (time.Now (world st)).2; calls := calls st |}).
Proof.
  intros Hs. unfold setOrderState. simpl. rewrite Hs.
  rewrite bind_eq, now_eq. reflexivity.
Qed.

Lemma setOrderState_other o s st :
  acme.IsFailureState s = false →
  setOrderState o s st
  = ({| cmapi.OrderStatus.URL := cmapi.OrderStatus.URL o;
        cmapi.OrderStatus.FinalizeURL := cmapi.OrderStatus.FinalizeURL o;
        cmapi.OrderStatus.CertificateURL := cmapi.OrderStatus.CertificateURL o;
        cmapi.OrderStatus.State := s;
        cmapi.OrderStatus.Challenges := cmapi.OrderStatus.Challenges o;
        cmapi.OrderStatus.FailureTime := cmapi.OrderStatus.FailureTime o |},
     st).
Proof. intros Hs. unfold setOrderState. simpl. by rewrite Hs. Qed.

Lemma setOrderState_frame o s st :
  let o' := (setOrderState o s st).1 in
  cmapi.OrderStatus.State o' = s
  ∧ cmapi.OrderStatus.URL o' = cmapi.OrderStatus.URL o
  ∧ cmapi.OrderStatus.FinalizeURL o' = cmapi.OrderStatus.FinalizeURL o
  ∧ cmapi.OrderStatus.CertificateURL o' = cmapi.OrderStatus.CertificateURL o
  ∧ cmapi.OrderStatus.Challenges o' = cmapi.OrderStatus.Challenges o
  ∧ calls (setOrderState o s st).2 = calls st.
Proof.
  destruct (acme.IsFailureState s) eqn:Hs.
  - by rewrite setOrderState_failure.
  - by rewrite setOrderState_other.
Qed.

Lemma setOrderStatus_eq o acmeOrder st :
  setOrderStatus o acmeOrder st
  = let r := setOrderState o (acmeapi.Order.Status acmeOrder) st in
    ({| cmapi.OrderStatus.URL := acmeapi.Order.URL acmeOrder;
        cmapi.OrderStatus.FinalizeURL := acmeapi.Order.FinalizeURL acmeOrder;
        cmapi.OrderStatus.CertificateURL :=
          acmeapi.Order.CertificateURL acmeOrder;
        cmapi.OrderStatus.State := cmapi.OrderStatus.State r.1;
        cmapi.OrderStatus.Challenges := cmapi.OrderStatus.Challenges r.1;
        cmapi.OrderStatus.FailureTime := cmapi.OrderStatus.FailureTime r.1 |},
     r.2).
Proof. unfold setOrderStatus. by rewrite bind_eq. Qed.

Lemma syncOrderStatus_fetched (cl : acmecl.Interface W) o acmeOrder w st :
  cmapi.OrderStatus.URL (cmapi.Order.Status o) ≠ "" →
  acmecl.GetOrder cl (cmapi.OrderStatus.URL (cmapi.Order.Status o)) (world st)
    = (inr acmeOrder, w) →
  syncOrderStatus cl o st
  = let r := setOrderStatus (cmapi.Order.Status o) acmeOrder
               {| world := w;
                  calls := calls st ++
                    [GetOrderCall (cmapi.OrderStatus.URL (cmapi.Order.Status o))] |} in
    ((None, withStatus o r.1), r.2).
Proof.
  intros Hurl Hget. unfold syncOrderStatus.
  rewrite (bool_decide_eq_false_2 _ Hurl).
  rewrite bind_eq, call_eq, Hget. simpl. by rewrite bind_eq.
Qed.

Lemma syncOrderStatus_fetch_failed (cl : acmecl.Interface W) o err w st :
  cmapi.OrderStatus.URL (cmapi.Order.Status o) ≠ "" →
  acmecl.GetOrder cl (cmapi.OrderStatus.URL (cmapi.Order.Status o)) (world st)
    = (inl err, w) →
  syncOrderStatus cl o st
  = ((Some err, o),
     {| world := w;
        calls := calls st ++
          [GetOrderCall (cmapi.OrderStatus.URL (cmapi.Order.Status o))] |}).
Proof.
  intros Hurl Hget. unfold syncOrderStatus.
  rewrite (bool_decide_eq_false_2 _ Hurl).
  by rewrite bind_eq, call_eq, Hget.
Qed.

(** Claim C9.  setOrderState never clears the failure timestamp: when the
  new state is not a failure state, FailureTime is left as it was; an
  Order that enters a failure state and then leaves it still carries the
  timestamp recorded at the failure. *)
Theorem setOrderState_keeps_failure_time :
  (∀ o s (st : St W),
     acme.IsFailureState s = false →
     cmapi.OrderStatus.FailureTime (setOrderState o s st).1
     = cmapi.OrderStatus.FailureTime o)
  ∧ (∀ o s1 s2 (st : St W),
       acme.IsFailureState s1 = true →
       acme.IsFailureState s2 = false →
       let r1 := setOrderState o s1 st in
       let r2 := setOrderState r1.1 s2 r1.2 in
       cmapi.OrderStatus.State r2.1 = s2
       ∧ cmapi.OrderStatus.FailureTime r2.1
         = Some (time.Now (world st)).1).
Proof.
  split.
  - intros o s st Hs. by rewrite setOrderState_other.
  - intros o s1 s2 st Hs1 Hs2. simpl.
    rewrite (setOrderState_failure o s1 st Hs1). simpl.
    by rewrite setOrderState_other.
Qed.

Lemma selectChallengeStep_enabled cfg acmeSpec acc ch :
  enabledInBoth cfg acmeSpec ch →
  selectChallengeStep cfg acmeSpec acc ch = Some ch.
Proof.
  unfold selectChallengeStep.
  intros [(Ht & Hc & Hi)|(Ht & Hc & Hi)].
  - by rewrite (bool_decide_eq_true_2 _ Ht), (bool_decide_eq_true_2 _ Hc),
      (bool_decide_eq_true_2 _ Hi).
  - rewrite (bool_decide_eq_true_2 _ Ht), (bool_decide_eq_true_2 _ Hc),
      (bool_decide_eq_true_2 _ Hi). simpl.
    by destruct (_ && _ && _).
Qed.

Lemma selectChallengeStep_disabled cfg acmeSpec acc ch :
  ¬ enabledInBoth cfg acmeSpec ch →
  selectChallengeStep cfg acmeSpec acc ch = acc.
Proof.
  unfold selectChallengeStep, enabledInBoth. intros Hno.
  repeat case_bool_decide; simpl; try done; exfalso; apply Hno; auto.
Qed.

Lemma selectChallengeStep_cases cfg acmeSpec acc ch :
  (enabledInBoth cfg acmeSpec ch
   ∧ selectChallengeStep cfg acmeSpec acc ch = Some ch)
  ∨ (¬ enabledInBoth cfg acmeSpec ch
     ∧ selectChallengeStep cfg acmeSpec acc ch = acc).
Proof.
  unfold selectChallengeStep, enabledInBoth.
  repeat case_bool_decide; simpl; intuition congruence.
Qed.

Lemma fold_selectChallengeStep_disabled cfg acmeSpec chs acc :
  Forall (λ ch, ¬ enabledInBoth cfg acmeSpec ch) chs →
  fold_left (selectChallengeStep cfg acmeSpec) chs acc = acc.
Proof.
  intros Hall. revert acc.
  induction Hall as [|ch chs Hch _ IH]; intros acc; simpl; [done|].
  by rewrite selectChallengeStep_disabled.
Qed.

Lemma selectChallenge_last cfg acmeSpec pre ch post :
  enabledInBoth cfg acmeSpec ch →
  Forall (λ ch', ¬ enabledInBoth cfg acmeSpec ch') post →
  selectChallenge cfg acmeSpec (pre ++ ch :: post)%list = Some ch.
Proof.
  intros Hch Hpost. unfold selectChallenge.
  rewrite fold_left_app. simpl.
  rewrite (selectChallengeStep_enabled _ _ _ _ Hch).
  by apply fold_selectChallengeStep_disabled.
Qed.

(** Whatever the loop selects is an offered option that is enabled on
    both sides. *)
Lemma fold_selectChallengeStep_Some cfg acmeSpec chs acc ch :
  fold_left (selectChallengeStep cfg acmeSpec) chs acc = Some ch →
  acc = Some ch ∨ (ch ∈ chs ∧ enabledInBoth cfg acmeSpec ch).
Proof.
  revert acc. induction chs as [|c chs IH]; intros acc; simpl; [by left|].
  intros [Hacc|[Hin Hen]]%IH.
  - destruct (selectChallengeStep_cases cfg acmeSpec acc c)
      as [[Hen Heq]|[_ Heq]]; rewrite Heq in Hacc.
    + injection Hacc as ->. right. split; [by left | done].
    + by left.
  - right. split; [by right | done].
Qed.

Lemma selectChallenge_Some cfg acmeSpec chs ch :
  selectChallenge cfg acmeSpec chs = Some ch →
  ch ∈ chs ∧ enabledInBoth cfg acmeSpec ch.
Proof. by intros [?|?]%fold_selectChallengeStep_Some. Qed.

(** challengeSpecForAuthorization once the selection is known. *)
Lemma challengeSpecForAuthorization_selected
    (cl : acmecl.Interface W) issuer o authz cfg acmeSpec ch st :
  solverConfigurationForAuthorization
    (cmapi.OrderSpec.Config (cmapi.Order.Spec o)) authz = inr cfg →
  cmapi.GenericIssuer.ACME issuer = Some acmeSpec →
  selectChallenge cfg acmeSpec (acmeapi.Authorization.Challenges authz)
    = Some ch →
  challengeSpecForAuthorization cl issuer o authz st
  = match keyForChallenge cl ch st with
    | (inl err, st') => (inl err, st')
    | (inr key, st') =>
        (inr {| cmapi.ChallengeSpec.AuthzURL := acmeapi.Authorization.URL authz;
                cmapi.ChallengeSpec.Type_ := acmeapi.Challenge.Type_ ch;
                cmapi.ChallengeSpec.URL := acmeapi.Challenge.URL ch;
                cmapi.ChallengeSpec.DNSName :=
                  acmeapi.AuthzID.Value
                    (acmeapi.Authorization.Identifier authz);
                cmapi.ChallengeSpec.Token := acmeapi.Challenge.Token ch;
                cmapi.ChallengeSpec.Key := key;
                cmapi.ChallengeSpec.Config := cfg;
                cmapi.ChallengeSpec.Wildcard :=
                  acmeapi.Authorization.Wildcard authz;
                cmapi.ChallengeSpec.IssuerRef :=
                  cmapi.OrderSpec.IssuerRef (cmapi.Order.Spec o) |}, st')
    end.
Proof.
  intros Hcfg Hacme Hsel. unfold challengeSpecForAuthorization.
  rewrite Hcfg, Hacme, Hsel. unfold bind.
  destruct (keyForChallenge cl ch st) as [[err|key] st']; reflexivity.
Qed.

(** Claim C1.  When the offered challenges are [pre ++ ch :: post], [ch]
  is enabled both in the matched solver configuration and in the issuer's
  ACME capabilities and no option of [post] is, the loop selects [ch], the
  last such option in server order, and the spec that is built carries the
  type, URL and token of [ch].  In particular, for the offer
  [dns-01; http-01] with both types enabled on both sides, http-01 is
  selected. *)
Theorem challengeSpecForAuthorization_last_match_wins :
  (∀ (cl : acmecl.Interface W) issuer o authz cfg acmeSpec pre ch post st,
     solverConfigurationForAuthorization
       (cmapi.OrderSpec.Config (cmapi.Order.Spec o)) authz = inr cfg →
     cmapi.GenericIssuer.ACME issuer = Some acmeSpec →
     acmeapi.Authorization.Challenges authz = (pre ++ ch :: post)%list →
     enabledInBoth cfg acmeSpec ch →
     Forall (λ ch', ¬ enabledInBoth cfg acmeSpec ch') post →
     selectChallenge cfg acmeSpec (acmeapi.Authorization.Challenges authz)
       = Some ch
     ∧ match keyForChallenge cl ch st with
       | (inl err, st') =>
           challengeSpecForAuthorization cl issuer o authz st = (inl err, st')
       | (inr key, st') =>
           ∃ cs, challengeSpecForAuthorization cl issuer o authz st
                 = (inr cs, st')
                 ∧ cmapi.ChallengeSpec.Type_ cs = acmeapi.Challenge.Type_ ch
                 ∧ cmapi.ChallengeSpec.URL cs = acmeapi.Challenge.URL ch
                 ∧ cmapi.ChallengeSpec.Token cs = acmeapi.Challenge.Token ch
                 ∧ cmapi.ChallengeSpec.Key cs = key
       end)
  ∧ (∀ (cl : acmecl.Interface W) issuer o authz cfg acmeSpec dns http st,
       solverConfigurationForAuthorization
         (cmapi.OrderSpec.Config (cmapi.Order.Spec o)) authz = inr cfg →
       cmapi.GenericIssuer.ACME issuer = Some acmeSpec →
       is_Some (cmapi.SolverConfig.HTTP01 cfg) →
       is_Some (cmapi.SolverConfig.DNS01 cfg) →
       is_Some (cmapi.ACMEIssuer.HTTP01 acmeSpec) →
       is_Some (cmapi.ACMEIssuer.DNS01 acmeSpec) →
       acmeapi.Authorization.Challenges authz = [dns; http] →
       acmeapi.Challenge.Type_ dns = "dns-01" →
       acmeapi.Challenge.Type_ http = "http-01" →
       selectChallenge cfg acmeSpec (acmeapi.Authorization.Challenges authz)
         = Some http
       ∧ ∀ cs st',
           challengeSpecForAuthorization cl issuer o authz st = (inr cs, st') →
           cmapi.ChallengeSpec.Type_ cs = "http-01").
Proof.
  split.
  - intros cl issuer o authz cfg acmeSpec pre ch post st
      Hcfg Hacme Hchs Hch Hpost.
    assert (selectChallenge cfg acmeSpec
              (acmeapi.Authorization.Challenges authz) = Some ch) as Hsel.
    { rewrite Hchs. by apply selectChallenge_last. }
    split; [done|].
    rewrite (challengeSpecForAuthorization_selected
               cl issuer o authz cfg acmeSpec ch st Hcfg Hacme Hsel).
    destruct (keyForChallenge cl ch st) as [[err|key] st']; [done|].
    eexists. split; [reflexivity|]. by simpl.
  - intros cl issuer o authz cfg acmeSpec dns http st
      Hcfg Hacme Hch Hcd Hih Hid Hchs Hdns Hhttp.
    assert (selectChallenge cfg acmeSpec
              (acmeapi.Authorization.Challenges authz) = Some http) as Hsel.
    { rewrite Hchs. apply (selectChallenge_last cfg acmeSpec [dns] http []).
      - left. auto.
      - constructor. }
    split; [done|]. intros cs st'.
    rewrite (challengeSpecForAuthorization_selected
               cl issuer o authz cfg acmeSpec http st Hcfg Hacme Hsel).
    destruct (keyForChallenge cl http st) as [[err|key] st0]; [done|].
    by intros [= <- _].
Qed.

(** Claim C10.  Every ChallengeSpec that challengeSpecForAuthorization
  returns has type "http-01" or "dns-01"; the challenge handed to
  keyForChallenge is always of one of these two types, so keyForChallenge
  takes one of its two client calls there and never its "unsupported
  challenge type" branch. *)
Theorem challengeSpecForAuthorization_type_supported
    (cl : acmecl.Interface W) issuer o authz :
  (∀ st cs st',
     challengeSpecForAuthorization cl issuer o authz st = (inr cs, st') →
     cmapi.ChallengeSpec.Type_ cs = "http-01"
     ∨ cmapi.ChallengeSpec.Type_ cs = "dns-01")
  ∧ (∀ cfg acmeSpec challenge,
       selectChallenge cfg acmeSpec (acmeapi.Authorization.Challenges authz)
         = Some challenge →
       (acmeapi.Challenge.Type_ challenge = "http-01"
        ∨ acmeapi.Challenge.Type_ challenge = "dns-01")
       ∧ keyForChallenge cl challenge
         = if bool_decide (acmeapi.Challenge.Type_ challenge = "http-01")
           then call (HTTP01ChallengeResponseCall
                        (acmeapi.Challenge.Token challenge))
                     (acmecl.HTTP01ChallengeResponse cl
                        (acmeapi.Challenge.Token challenge))
           else call (DNS01ChallengeRecordCall
                        (acmeapi.Challenge.Token challenge))
                     (acmecl.DNS01ChallengeRecord cl
                        (acmeapi.Challenge.Token challenge))).
Proof.
  assert (∀ cfg acmeSpec challenge,
            selectChallenge cfg acmeSpec
              (acmeapi.Authorization.Challenges authz) = Some challenge →
            acmeapi.Challenge.Type_ challenge = "http-01"
            ∨ acmeapi.Challenge.Type_ challenge = "dns-01") as Htype.
  { intros cfg acmeSpec challenge [_ [(Ht & _)|(Ht & _)]]%selectChallenge_Some;
      auto. }
  split.
  - intros st cs st'. unfold challengeSpecForAuthorization.
    destruct (solverConfigurationForAuthorization _ authz) as [err|cfg];
      [discriminate|].
    destruct (cmapi.GenericIssuer.ACME issuer) as [acmeSpec|];
      [|discriminate].
    destruct (selectChallenge cfg acmeSpec _) as [challenge|] eqn:Hsel;
      [|discriminate].
    unfold bind.
    destruct (keyForChallenge cl challenge st) as [[err|key] st0];
      [discriminate|].
    intros [= <- _]. simpl. by eapply Htype.
  - intros cfg acmeSpec challenge Hsel. split; [by eapply Htype|].
    unfold keyForChallenge.
    destruct (Htype _ _ _ Hsel) as [Ht|Ht]; rewrite Ht; reflexivity.
Qed.
Lemma createWanted_false s existingChallenges :
  createWanted s existingChallenges = false
  ↔ hasExistingChallenge existingChallenges s.
Proof.
  unfold hasExistingChallenge.
  induction existingChallenges as [|ch rest IH]; simpl.
  - split; [discriminate|]. by intros (ch & ?%elem_of_nil & _).
  - case_bool_decide as Heq.
    + split; [|done]. intros _. exists ch. split; [by left | done].
    + rewrite IH. split.
      * intros (ch' & Hin & Hname). exists ch'. split; [by right | done].
      * intros (ch' & [->|Hin]%elem_of_cons & Hname); [done|]. by exists ch'.
Qed.

Lemma createWanted_true s existingChallenges :
  createWanted s existingChallenges = true
  ↔ ¬ hasExistingChallenge existingChallenges s.
Proof.
  rewrite <- createWanted_false. by destruct (createWanted _ _).
Qed.

Lemma specsToCreateLoop_lookup existingChallenges planned :
  ∀ (i0 : nat) (acc : gmap nat cmapi.ChallengeSpec.t) (k : nat),
    (k ≤ length planned)%nat →
    (∀ j s, (j < k)%nat → planned !! j = Some s →
            ¬ hasExistingChallenge existingChallenges s) →
    (∀ s, planned !! k = Some s →
          hasExistingChallenge existingChallenges s) →
    ∀ i : nat,
      specsToCreateLoop existingChallenges i0 planned acc !! i
      = if decide (i0 ≤ i < i0 + k)%nat
        then planned !! (i - i0)%nat else acc !! i.
Proof.
  induction planned as [|s rest IH]; intros i0 acc k Hk Hbefore Hat i; simpl.
  - simpl in Hk. case_decide; [lia | done].
  - destruct k as [|k].
    + rewrite (proj2 (createWanted_false s existingChallenges));
        [|by apply Hat].
      case_decide; [lia | done].
    + rewrite (proj2 (createWanted_true s existingChallenges));
        [|apply (Hbefore 0%nat); [lia | done]].
      rewrite (IH (S i0) _ k).
      * destruct (decide (i = i0)) as [->|Hne].
        -- rewrite decide_False by lia. rewrite decide_True by lia.
           rewrite lookup_insert_eq. by rewrite Nat.sub_diag.
        -- rewrite lookup_insert_ne by done.
           destruct (decide (S i0 ≤ i < S i0 + k)%nat) as [Hin|Hout].
           ++ rewrite decide_True by lia.
              replace (i - i0)%nat with (S (i - S i0)) by lia. done.
           ++ by rewrite decide_False by lia.
      * simpl in Hk. lia.
      * intros j s' Hj Hl. apply (Hbefore (S j)); [lia | done].
      * intros s' Hl. by apply Hat.
Qed.

Lemma createChallenges_calls (c : Controller W) o todo :
  ∀ errs existingChallenges st,
    calls (createChallenges c o todo errs existingChallenges st).2
    = calls st ++
      ((λ p : nat * cmapi.ChallengeSpec.t,
          ChallengesCreateCall (cmapi.Order.Namespace o)
            (buildChallenge p.1 o p.2)) <$> todo).
Proof.
  induction todo as [|[i spec] rest IH]; intros errs ex st; simpl.
  - by rewrite app_nil_r.
  - rewrite bind_eq, call_eq. simpl.
    destruct (CMClient_Challenges_Create c _ _ _).1 as [err|ch];
      rewrite IH; simpl; by rewrite <- app_assoc.
Qed.

(** Claim C2.  Let [k] be the index of the first planned entry for which
  an existing Challenge with the same DNS name is found ([k] is the length
  of the list when there is none).  The selection made for a Pending or
  Processing Order holds exactly the planned entries of index below [k],
  each under its own index, and nothing at or after [k]; the creation
  loop issues one Create call for each selected entry and no other. *)
Theorem specsToCreate_stops_at_first_match
    (c : Controller W) existingChallenges o planned k :
  cmapi.OrderStatus.Challenges (cmapi.Order.Status o) = Some planned →
  (k ≤ length planned)%nat →
  (∀ j s, (j < k)%nat → planned !! j = Some s →
          ¬ hasExistingChallenge existingChallenges s) →
  (∀ s, planned !! k = Some s → hasExistingChallenge existingChallenges s) →
  (∀ i : nat,
     specsToCreate existingChallenges o !! i
     = if decide (i < k)%nat then planned !! i else None)
  ∧ (∀ errs existing st,
       calls (createChallenges c o
                (map_to_list (specsToCreate existingChallenges o))
                errs existing st).2
       = calls st ++
         ((λ p : nat * cmapi.ChallengeSpec.t,
             ChallengesCreateCall (cmapi.Order.Namespace o)
               (buildChallenge p.1 o p.2))
            <$> map_to_list (specsToCreate existingChallenges o))).
Proof.
  intros Hplanned Hk Hbefore Hat. split.
  - intros i. unfold specsToCreate. rewrite Hplanned. simpl.
    rewrite (specsToCreateLoop_lookup _ _ 0%nat ∅ k Hk Hbefore Hat).
    rewrite Nat.sub_0_r, lookup_empty.
    destruct (decide (i < k)%nat).
    + by rewrite decide_True by lia.
    + by rewrite decide_False by lia.
  - intros errs existing st. apply createChallenges_calls.
Qed.
Lemma setOrderState_calls o s (st : St W) :
  calls (setOrderState o s st).2 = calls st.
Proof.
  unfold setOrderState. simpl. destruct (acme.IsFailureState s); [|done].
  by rewrite bind_eq, now_eq.
Qed.

Lemma setOrderStatus_calls o acmeOrder (st : St W) :
  calls (setOrderStatus o acmeOrder st).2 = calls st.
Proof.
  unfold setOrderStatus. rewrite bind_eq. simpl. apply setOrderState_calls.
Qed.

(** The status synchronizer makes at most one call, [GetOrder]. *)
Lemma syncOrderStatus_calls (cl : acmecl.Interface W) o st :
  calls (syncOrderStatus cl o st).2 = calls st
  ∨ calls (syncOrderStatus cl o st).2
    = calls st ++ [GetOrderCall (cmapi.OrderStatus.URL (cmapi.Order.Status o))].
Proof.
  unfold syncOrderStatus. case_bool_decide; [by left|]. right.
  rewrite bind_eq, call_eq. simpl.
  destruct (acmecl.GetOrder cl _ _).1; [done|].
  rewrite bind_eq. simpl. by rewrite setOrderStatus_calls.
Qed.

(** The deferred function makes at most one call, the status update. *)
Lemma syncDeferred_calls (c : Controller W) oldOrder err o st :
  calls (syncDeferred c oldOrder err o st).2 = calls st
  ∨ calls (syncDeferred c oldOrder err o st).2
    = calls st ++ [OrdersUpdateCall (cmapi.Order.Namespace o) o].
Proof.
  unfold syncDeferred. case_bool_decide; [by left|]. right.
  rewrite bind_eq, call_eq. simpl. by destruct err.
Qed.

Lemma Sync_eq (c : Controller W) o st :
  Sync c o st
  = syncDeferred c o (syncBody c o st).1.1 (syncBody c o st).1.2
      (syncBody c o st).2.
Proof.
  unfold Sync. rewrite bind_eq. by destruct (syncBody c o st).1.
Qed.

(** syncBody once both lookups have succeeded: the dispatch on the
    Order's URL and state, run after the two logged calls. *)
Lemma syncBody_dispatch (c : Controller W) o st issuer w1 cl w2 :
  let issuerRef := cmapi.OrderSpec.IssuerRef (cmapi.Order.Spec o) in
  let ns := cmapi.Order.Namespace o in
  let state := cmapi.OrderStatus.State (cmapi.Order.Status o) in
  helper_GetGenericIssuer c issuerRef ns (world st) = (inr issuer, w1) →
  acmeHelper_ClientForIssuer c issuer w1 = (inr cl, w2) →
  syncBody c o st
  = (if bool_decide (cmapi.OrderStatus.URL (cmapi.Order.Status o) = "")
     then createOrder cl issuer o
     else if acme.IsFinalState state then ret (None, o)
     else if bool_decide (state = Unknown) then
       r <- syncOrderStatus cl o ;;
       match r with
       | (Some err, o) => ret (Some err, o)
       | (None, o) =>
           ret (Some (Errorf "updated unknown order state. Retrying processing after applying back-off" []),
                o)
       end
     else if bool_decide (state = Ready) then
       fin <- call (FinalizeOrderCall
                      (cmapi.OrderStatus.FinalizeURL (cmapi.Order.Status o))
                      (cmapi.OrderSpec.CSR (cmapi.Order.Spec o)))
                   (acmecl.FinalizeOrder cl
                      (cmapi.OrderStatus.FinalizeURL (cmapi.Order.Status o))
                      (cmapi.OrderSpec.CSR (cmapi.Order.Spec o))) ;;
       r <- syncOrderStatus cl o ;;
       match r with
       | (Some errUpdate, o) =>
           ret (Some (Errorf "error syncing order status: %v"
                             [inr errUpdate]), o)
       | (None, o) =>
           match fin with
           | inl err =>
               ret (Some (Errorf "error finalizing order: %v" [inr err]), o)
           | inr _ => ret (None, o)
           end
       end
     else if bool_decide (state = Pending)
             || bool_decide (state = Processing)
     then syncChallenges c cl o
     else ret (Some (Errorf "unknown order state %q" [inl state]), o))
      {| world := w2;
         calls := calls st ++ [GetGenericIssuerCall issuerRef ns;
                               ClientForIssuerCall issuer] |}.
Proof.
  intros issuerRef ns state Hissuer Hclient. unfold syncBody.
  fold issuerRef ns state.
  rewrite bind_eq, call_eq, Hissuer. simpl.
  rewrite bind_eq, call_eq. simpl. rewrite Hclient. simpl.
  rewrite <- app_assoc. reflexivity.
Qed.

(** *** Terminal orders *)

(** Claim C5, as amended.  For an Order with a non-empty Status.URL whose
  state is classified final, Sync first resolves the issuer and builds
  the ACME client for it.  If the issuer lookup fails, Sync returns that
  error, wrapped; if the client cannot be built, Sync returns that error;
  otherwise it returns nil.  In all three cases these lookups are the
  only calls made: no ACME client call, no Challenge list or create, no
  Order update. *)
Theorem Sync_final_state_after_issuer_lookup (c : Controller W) o st :
  cmapi.OrderStatus.URL (cmapi.Order.Status o) ≠ "" →
  acme.IsFinalState (cmapi.OrderStatus.State (cmapi.Order.Status o)) = true →
  let issuerRef := cmapi.OrderSpec.IssuerRef (cmapi.Order.Spec o) in
  let ns := cmapi.Order.Namespace o in
  Sync c o st
  = match helper_GetGenericIssuer c issuerRef ns (world st) with
    | (inl err, w1) =>
        (Some (Errorf "error reading (cluster)issuer %q: %v"
                      [inl (cmapi.ObjectReference.Name issuerRef); inr err]),
         {| world := w1;
            calls := calls st ++ [GetGenericIssuerCall issuerRef ns] |})
    | (inr issuer, w1) =>
        match acmeHelper_ClientForIssuer c issuer w1 with
        | (inl err, w2) =>
            (Some err,
             {| world := w2;
                calls := calls st ++ [GetGenericIssuerCall issuerRef ns;
                                      ClientForIssuerCall issuer] |})
        | (inr _, w2) =>
            (None,
             {| world := w2;
                calls := calls st ++ [GetGenericIssuerCall issuerRef ns;
                                      ClientForIssuerCall issuer] |})
        end
    end.
Proof.
  intros Hurl Hfinal issuerRef ns.
  destruct (helper_GetGenericIssuer c issuerRef ns (world st))
    as [[err|issuer] w1] eqn:Hissuer.
  - rewrite Sync_eq. unfold syncBody. fold issuerRef ns.
    rewrite bind_eq, call_eq, Hissuer. simpl.
    unfold syncDeferred. by rewrite bool_decide_eq_true_2.
  - destruct (acmeHelper_ClientForIssuer c issuer w1)
      as [[err|cl] w2] eqn:Hclient.
    + rewrite Sync_eq. unfold syncBody. fold issuerRef ns.
      rewrite bind_eq, call_eq, Hissuer. simpl.
      rewrite bind_eq, call_eq. simpl. rewrite Hclient. simpl.
      unfold syncDeferred. rewrite bool_decide_eq_true_2 by done.
      unfold ret. by rewrite <- app_assoc.
    + rewrite Sync_eq.
      rewrite (syncBody_dispatch c o st issuer w1 cl w2 Hissuer Hclient).
      rewrite (bool_decide_eq_false_2 _ Hurl), Hfinal. simpl.
      unfold syncDeferred. by rewrite bool_decide_eq_true_2.
Qed.

(** *** Ready orders *)

(** Claim C3.  For an Order in Ready state that reaches the dispatch (its
  URL is set, both lookups succeed, Ready is neither final nor equal to
  Unknown), Sync calls FinalizeOrder and then GetOrder, whatever
  FinalizeOrder answered; the only call that may follow is the status
  update.  If GetOrder fails, Sync returns that error, wrapped as the
  status-sync error, and nothing of the finalize error.  Otherwise Sync
  returns the finalize error when there is one (alone, or first in the
  aggregate built with the update's outcome) and nil when finalize
  succeeded. *)
Theorem Sync_ready_finalize_then_status_sync
    (c : Controller W) o st issuer w1 cl w2 fin w3 got w4 :
  let issuerRef := cmapi.OrderSpec.IssuerRef (cmapi.Order.Spec o) in
  let ns := cmapi.Order.Namespace o in
  let url := cmapi.OrderStatus.URL (cmapi.Order.Status o) in
  let finalizeURL := cmapi.OrderStatus.FinalizeURL (cmapi.Order.Status o) in
  let csr := cmapi.OrderSpec.CSR (cmapi.Order.Spec o) in
  cmapi.OrderStatus.State (cmapi.Order.Status o) = Ready →
  Ready ≠ Unknown →
  acme.IsFinalState Ready = false →
  url ≠ "" →
  helper_GetGenericIssuer c issuerRef ns (world st) = (inr issuer, w1) →
  acmeHelper_ClientForIssuer c issuer w1 = (inr cl, w2) →
  acmecl.FinalizeOrder cl finalizeURL csr w2 = (fin, w3) →
  acmecl.GetOrder cl url w3 = (got, w4) →
  (∃ rest,
     calls (Sync c o st).2
     = calls st ++ [GetGenericIssuerCall issuerRef ns;
                    ClientForIssuerCall issuer;
                    FinalizeOrderCall finalizeURL csr;
                    GetOrderCall url] ++ rest
     ∧ (rest = [] ∨ ∃ o', rest = [OrdersUpdateCall ns o']))
  ∧ match got, fin with
    | inl errUpdate, _ =>
        Sync c o st
        = (Some (Errorf "error syncing order status: %v" [inr errUpdate]),
           {| world := w4;
              calls := calls st ++ [GetGenericIssuerCall issuerRef ns;
                                    ClientForIssuerCall issuer;
                                    FinalizeOrderCall finalizeURL csr;
                                    GetOrderCall url] |})
    | inr _, inl err =>
        let e := Errorf "error finalizing order: %v" [inr err] in
        (Sync c o st).1 = Some e
        ∨ ∃ rest, (Sync c o st).1 = Some (aggregate (e :: rest))
    | inr _, inr _ => (Sync c o st).1 = None
    end.
Proof.
  intros issuerRef ns url finalizeURL csr
    Hstate Hne Hfinal Hurl Hissuer Hclient Hfin Hget.
  rewrite !Sync_eq.
  rewrite (syncBody_dispatch c o st issuer w1 cl w2 Hissuer Hclient).
  fold url finalizeURL csr.
  rewrite (bool_decide_eq_false_2 _ Hurl), Hstate, Hfinal.
  rewrite (bool_decide_eq_false_2 _ Hne), bool_decide_eq_true_2 by done.
  rewrite bind_eq, call_eq. simpl. rewrite Hfin. simpl.
  rewrite bind_eq. rewrite <- app_assoc. simpl.
  destruct got as [errUpdate|acmeOrder].
  - rewrite (syncOrderStatus_fetch_failed cl o errUpdate w4); [|done..].
    simpl. unfold syncDeferred. rewrite bool_decide_eq_true_2 by done.
    rewrite <- app_assoc. simpl. split; [|done].
    exists []. split; [done | by left].
  - rewrite (syncOrderStatus_fetched cl o acmeOrder w4); [|done..].
    fold url. simpl.
    set (st4 := (setOrderStatus _ _ _).2).
    set (o4 := withStatus o _).
    assert (calls st4 = calls st ++ [GetGenericIssuerCall issuerRef ns;
                                    ClientForIssuerCall issuer;
                                    FinalizeOrderCall finalizeURL csr;
                                    GetOrderCall url]) as Hcalls.
    { unfold st4. rewrite setOrderStatus_calls. simpl.
      by rewrite <- app_assoc. }
    destruct fin as [err|cert]; simpl; unfold syncDeferred;
      case_bool_decide; simpl.
    + split; [|by left]. exists []. split; [|by left].
      by rewrite Hcalls.
    + rewrite bind_eq, call_eq. simpl. split.
      * exists [OrdersUpdateCall ns o4]. split; [|right; by exists o4].
        by rewrite Hcalls, <- app_assoc.
      * right. case_match; eexists; reflexivity.
    + split; [|done]. exists []. split; [|by left]. by rewrite Hcalls.
    + rewrite bind_eq, call_eq. simpl. split; [|done].
      exists [OrdersUpdateCall ns o4]. split; [|right; by exists o4].
      by rewrite Hcalls, <- app_assoc.
Qed.


(** *** Orders in a state the dispatch does not know *)

Lemma Sync_unrecognised_state (c : Controller W) o st issuer w1 cl w2 :
  let issuerRef := cmapi.OrderSpec.IssuerRef (cmapi.Order.Spec o) in
  let ns := cmapi.Order.Namespace o in
  let state := cmapi.OrderStatus.State (cmapi.Order.Status o) in
  cmapi.OrderStatus.URL (cmapi.Order.Status o) ≠ "" →
  acme.IsFinalState state = false →
  state ≠ Unknown → state ≠ Ready → state ≠ Pending → state ≠ Processing →
  helper_GetGenericIssuer c issuerRef ns (world st) = (inr issuer, w1) →
  acmeHelper_ClientForIssuer c issuer w1 = (inr cl, w2) →
  Sync c o st
  = (Some (Errorf "unknown order state %q" [inl state]),
     {| world := w2;
        calls := calls st ++ [GetGenericIssuerCall issuerRef ns;
                              ClientForIssuerCall issuer] |}).
Proof.
  intros issuerRef ns state Hurl Hfinal HU HR HP HQ Hissuer Hclient.
  rewrite Sync_eq.
  rewrite (syncBody_dispatch c o st issuer w1 cl w2 Hissuer Hclient).
  fold state.
  rewrite (bool_decide_eq_false_2 _ Hurl), Hfinal.
  rewrite (bool_decide_eq_false_2 _ HU), (bool_decide_eq_false_2 _ HR),
    (bool_decide_eq_false_2 _ HP), (bool_decide_eq_false_2 _ HQ).
  simpl. unfold syncDeferred. by rewrite bool_decide_eq_true_2.
Qed.

(** *** The deferred status update *)

(** With no error to return, the deferred function still issues the
    update when the status changed, and returns nil whatever the update
    answered. *)
Lemma syncDeferred_nil_error (c : Controller W) oldOrder o st :
  cmapi.Order.Status oldOrder ≠ cmapi.Order.Status o →
  syncDeferred c oldOrder None o st
  = (None,
     {| world := (CMClient_Orders_Update c (cmapi.Order.Namespace o) o
                    (world st)).2;
        calls := calls st ++ [OrdersUpdateCall (cmapi.Order.Namespace o) o] |}).
Proof.
  intros Hchanged. unfold syncDeferred.
  rewrite (bool_decide_eq_false_2 _ Hchanged).
  by rewrite bind_eq, call_eq.
Qed.

(** With an error to return, the update's error joins it in one
    aggregate. *)
Lemma syncDeferred_aggregates (c : Controller W) oldOrder e o st :
  cmapi.Order.Status oldOrder ≠ cmapi.Order.Status o →
  (syncDeferred c oldOrder (Some e) o st).1
  = match (CMClient_Orders_Update c (cmapi.Order.Namespace o) o
             (world st)).1 with
    | inl updateErr => Some (aggregate [e; updateErr])
    | inr _ => Some (aggregate [e])
    end.
Proof.
  intros Hchanged. unfold syncDeferred.
  rewrite (bool_decide_eq_false_2 _ Hchanged).
  rewrite bind_eq, call_eq. simpl. by case_match.
Qed.

(** *** Pending and Processing orders: which Challenges are created *)


(** *** createOrder *)

(** Two results recorded for one and the same call are equal. *)
Ltac same_call :=
  repeat match goal with
         | H1 : ?f = _, H2 : ?f = _ |- _ => rewrite H1 in H2; simplify_eq
         end.

Lemma createOrderLoop_fails (cl : acmecl.Interface W) issuer o authzURLs :
  ∀ st err st',
    createOrderLoop cl issuer o authzURLs st = (inl err, st')
    ↔ authorizationFails cl issuer o authzURLs st err st'.
Proof.
  induction authzURLs as [|authzURL rest IH]; intros st err st'; simpl.
  - split; [discriminate | inversion 1].
  - rewrite bind_eq, call_eq.
    destruct (acmecl.GetAuthorization cl authzURL (world st))
      as [[e|authz] w] eqn:Hget; simpl.
    + split.
      * intros [= <- <-]. by apply fetchFails.
      * inversion 1; subst; same_call; done.
    + rewrite bind_eq.
      destruct (challengeSpecForAuthorization cl issuer o authz _)
        as [[e|cs] st1] eqn:Hbuild; simpl.
      * split.
        -- intros [= <- <-]. by eapply buildFails.
        -- inversion 1; subst; same_call; done.
      * rewrite bind_eq.
        destruct (createOrderLoop cl issuer o rest st1)
          as [[e|chals] st2] eqn:Hrest; simpl.
        -- apply IH in Hrest. split.
           ++ intros [= <- <-]. by eapply laterFails.
           ++ inversion 1 as [| |? ? ? ? ? ? ? ? ? ? ? Hf]; subst; same_call.
              apply IH in Hf. apply IH in Hrest. by same_call.
        -- split; [discriminate|].
           inversion 1 as [| |? ? ? ? ? ? ? ? ? ? ? Hf]; subst; same_call.
           apply IH in Hf. by same_call.
Qed.

(** Claim C8.  When createOrder runs on an Order with an empty Status.URL,
  the remote order is created, and then some authorization fetch or
  challenge-spec build fails, createOrder returns that error;
  Status.Challenges is left as it was (unset when it was unset), while
  URL, FinalizeURL, CertificateURL and State already hold the values of
  the remote order. *)
Theorem createOrder_partial_failure
    (cl : acmecl.Interface W) issuer o st acmeOrder w1 err st2 :
  let identifiers := sets_List (identifierSet o) in
  let r1 := setOrderStatus (cmapi.Order.Status o) acmeOrder
              {| world := w1;
                 calls := calls st ++ [CreateOrderCall identifiers] |} in
  cmapi.OrderStatus.URL (cmapi.Order.Status o) = "" →
  acmecl.CreateOrder cl identifiers (world st) = (inr acmeOrder, w1) →
  authorizationFails cl issuer (withStatus o r1.1)
    (acmeapi.Order.Authorizations acmeOrder) r1.2 err st2 →
  ∃ o', createOrder cl issuer o st = ((Some err, o'), st2)
        ∧ cmapi.OrderStatus.Challenges (cmapi.Order.Status o')
          = cmapi.OrderStatus.Challenges (cmapi.Order.Status o)
        ∧ (cmapi.OrderStatus.Challenges (cmapi.Order.Status o) = None →
           cmapi.OrderStatus.Challenges (cmapi.Order.Status o') = None)
        ∧ cmapi.OrderStatus.URL (cmapi.Order.Status o')
          = acmeapi.Order.URL acmeOrder
        ∧ cmapi.OrderStatus.FinalizeURL (cmapi.Order.Status o')
          = acmeapi.Order.FinalizeURL acmeOrder
        ∧ cmapi.OrderStatus.CertificateURL (cmapi.Order.Status o')
          = acmeapi.Order.CertificateURL acmeOrder
        ∧ cmapi.OrderStatus.State (cmapi.Order.Status o')
          = acmeapi.Order.Status acmeOrder.
Proof.
  intros identifiers r1 Hurl Hcreate Hfails.
  apply createOrderLoop_fails in Hfails.
  exists (withStatus o r1.1).
  assert (cmapi.OrderStatus.Challenges r1.1
          = cmapi.OrderStatus.Challenges (cmapi.Order.Status o)
          ∧ cmapi.OrderStatus.State r1.1 = acmeapi.Order.Status acmeOrder)
    as [Hchals Hstate].
  { unfold r1. rewrite setOrderStatus_eq. simpl.
    destruct (setOrderState_frame (cmapi.Order.Status o)
                (acmeapi.Order.Status acmeOrder)
                {| world := w1;
                   calls := calls st ++ [CreateOrderCall identifiers] |})
      as (Hs & _ & _ & _ & Hc & _).
    done. }
  split.
  - unfold createOrder. rewrite bool_decide_eq_false_2 by (by rewrite Hurl; intros []).
    fold identifiers. rewrite bind_eq, call_eq, Hcreate. simpl.
    rewrite bind_eq. fold r1. rewrite bind_eq, Hfails. reflexivity.
  - simpl. rewrite Hchals, Hstate. unfold r1. rewrite setOrderStatus_eq.
    simpl. done.
Qed.
End Properties.

(** * Further properties of the reconciliation code *)

Section MoreProperties.
Context {W : Type} {clock : time.Clock W}.
Context {consts : cmapi_state.Consts} {predicates : acme.Predicates}.
Context {validation : labels.Validation}.
Import cmapi_state.

(** ** Which calls a run may append *)

Lemma callsExtend_refl (P : Event → bool) (st : St W) : callsExtend P st st.
Proof. exists []. split; [by rewrite app_nil_r | constructor]. Qed.

Lemma callsExtend_trans (P : Event → bool) (st1 st2 st3 : St W) :
  callsExtend P st1 st2 → callsExtend P st2 st3 → callsExtend P st1 st3.
Proof.
  intros (evs1 & H1 & HP1) (evs2 & H2 & HP2). exists (evs1 ++ evs2).
  split; [by rewrite H2, H1, app_assoc | by apply Forall_app].
Qed.

Lemma callsExtend_call {A} (P : Event → bool) ev (f : W → A * W) (st : St W) :
  P ev = true → callsExtend P st (call ev f st).2.
Proof.
  intros HP. rewrite call_eq. exists [ev].
  split; [reflexivity | by constructor].
Qed.

Lemma callsExtend_same_calls (P : Event → bool) (st st' : St W) :
  calls st' = calls st → callsExtend P st st'.
Proof. intros H. exists []. split; [by rewrite app_nil_r | constructor]. Qed.

Lemma keyForChallenge_calls (cl : acmecl.Interface W) challenge st :
  callsExtend isAuthorizationWork st (keyForChallenge cl challenge st).2.
Proof.
  unfold keyForChallenge. repeat case_bool_decide.
  - by apply callsExtend_call.
  - by apply callsExtend_call.
  - apply callsExtend_refl.
Qed.

Lemma challengeSpecForAuthorization_calls
    (cl : acmecl.Interface W) issuer o authz st :
  callsExtend isAuthorizationWork st
    (challengeSpecForAuthorization cl issuer o authz st).2.
Proof.
  unfold challengeSpecForAuthorization.
  destruct (solverConfigurationForAuthorization _ authz) as [err|cfg];
    [apply callsExtend_refl|].
  destruct (cmapi.GenericIssuer.ACME issuer) as [acmeSpec|];
    [|apply callsExtend_refl].
  destruct (selectChallenge cfg acmeSpec _) as [challenge|];
    [|apply callsExtend_refl].
  rewrite bind_eq.
  pose proof (keyForChallenge_calls cl challenge st) as Hkey.
  by destruct (keyForChallenge cl challenge st).1.
Qed.

Lemma createOrderLoop_calls (cl : acmecl.Interface W) issuer o authzURLs :
  ∀ st, callsExtend isAuthorizationWork st
          (createOrderLoop cl issuer o authzURLs st).2.
Proof.
  induction authzURLs as [|authzURL rest IH]; intros st; simpl.
  - apply callsExtend_refl.
  - rewrite bind_eq.
    pose proof (callsExtend_call isAuthorizationWork
                  (GetAuthorizationCall authzURL)
                  (acmecl.GetAuthorization cl authzURL) st eq_refl) as Hget.
    destruct (call _ _ st) as [[err|authz] st1]; simpl in *; [exact Hget|].
    rewrite bind_eq.
    pose proof (challengeSpecForAuthorization_calls cl issuer o authz st1)
      as Hbuild.
    destruct (challengeSpecForAuthorization cl issuer o authz st1)
      as [[err|cs] st2]; simpl in *.
    + by eapply callsExtend_trans.
    + rewrite bind_eq. pose proof (IH st2) as Hrest.
      destruct (createOrderLoop cl issuer o rest st2) as [[err|chals] st3];
        simpl in *; eapply callsExtend_trans; eauto using callsExtend_trans.
Qed.

(** createOrder on a new Order: one CreateOrder call, then only the
    authorization walk. *)
Lemma createOrder_calls (cl : acmecl.Interface W) issuer o st :
  cmapi.OrderStatus.URL (cmapi.Order.Status o) = "" →
  ∃ st1, calls st1 = calls st ++ [CreateOrderCall (sets_List (identifierSet o))]
         ∧ callsExtend isAuthorizationWork st1 (createOrder cl issuer o st).2.
Proof.
  intros Hurl. unfold createOrder.
  rewrite bool_decide_eq_false_2 by (by rewrite Hurl; intros []).
  rewrite bind_eq, call_eq. simpl.
  destruct (acmecl.CreateOrder cl _ (world st)) as [[err|acmeOrder] w1]; simpl.
  - exists {| world := w1;
              calls := calls st ++
                [CreateOrderCall (sets_List (identifierSet o))] |}.
    split; [reflexivity|]. apply callsExtend_refl.
  - rewrite bind_eq.
    set (st1 := {| world := w1; calls := _ |}).
    exists (setOrderStatus (cmapi.Order.Status o) acmeOrder st1).2.
    split; [by rewrite setOrderStatus_calls|].
    rewrite bind_eq.
    pose proof (createOrderLoop_calls cl issuer
                  (withStatus o (setOrderStatus (cmapi.Order.Status o)
                                   acmeOrder st1).1)
                  (acmeapi.Order.Authorizations acmeOrder)
                  (setOrderStatus (cmapi.Order.Status o) acmeOrder st1).2)
      as Hloop.
    by destruct (createOrderLoop _ _ _ _ _).1.
Qed.

(** A new Order: Sync calls CreateOrder exactly once, right after the two
    lookups; what follows is the authorization walk and at most the status
    update.  FinalizeOrder, GetOrder and the Challenge store are never
    called. *)
Theorem Sync_new_order_calls (c : Controller W) o st issuer w1 cl w2 :
  let issuerRef := cmapi.OrderSpec.IssuerRef (cmapi.Order.Spec o) in
  let ns := cmapi.Order.Namespace o in
  cmapi.OrderStatus.URL (cmapi.Order.Status o) = "" →
  helper_GetGenericIssuer c issuerRef ns (world st) = (inr issuer, w1) →
  acmeHelper_ClientForIssuer c issuer w1 = (inr cl, w2) →
  ∃ rest,
    calls (Sync c o st).2
    = calls st ++ [GetGenericIssuerCall issuerRef ns;
                   ClientForIssuerCall issuer;
                   CreateOrderCall (sets_List (identifierSet o))] ++ rest
    ∧ Forall (λ ev, isAuthorizationWork ev || isOrdersUpdate ev = true) rest.
Proof.
  intros issuerRef ns Hurl Hissuer Hclient.
  rewrite Sync_eq.
  rewrite (syncBody_dispatch c o st issuer w1 cl w2 Hissuer Hclient).
  rewrite (bool_decide_eq_true_2 _ Hurl).
  set (st2 := {| world := w2; calls := _ |}).
  destruct (createOrder_calls cl issuer o st2 Hurl)
    as (st3 & Hst3 & evs & Hevs & Hwork).
  assert (Forall (λ ev, isAuthorizationWork ev || isOrdersUpdate ev = true) evs)
    as Hwork'.
  { eapply Forall_impl; [exact Hwork|]. intros ev ->. reflexivity. }
  destruct (syncDeferred_calls c o (createOrder cl issuer o st2).1.1
              (createOrder cl issuer o st2).1.2 (createOrder cl issuer o st2).2)
    as [Hd|Hd]; rewrite Hd, Hevs, Hst3; unfold st2; simpl;
    rewrite <- !app_assoc; simpl.
  - exists evs. split; [reflexivity | exact Hwork'].
  - eexists (evs ++ [_]). split; [reflexivity|].
    apply Forall_app. split; [exact Hwork'|].
    constructor; [reflexivity | constructor].
Qed.

(** ** createOrder: the planned challenge list *)

Lemma challengeSpecForAuthorization_issuerRef
    (cl : acmecl.Interface W) issuer o authz st cs st' :
  challengeSpecForAuthorization cl issuer o authz st = (inr cs, st') →
  cmapi.ChallengeSpec.IssuerRef cs
  = cmapi.OrderSpec.IssuerRef (cmapi.Order.Spec o)
  ∧ cmapi.ChallengeSpec.DNSName cs
    = acmeapi.AuthzID.Value (acmeapi.Authorization.Identifier authz).
Proof.
  unfold challengeSpecForAuthorization.
  destruct (solverConfigurationForAuthorization _ authz) as [err|cfg];
    [discriminate|].
  destruct (cmapi.GenericIssuer.ACME issuer) as [acmeSpec|]; [|discriminate].
  destruct (selectChallenge cfg acmeSpec _) as [challenge|]; [|discriminate].
  rewrite bind_eq.
  destruct (keyForChallenge cl challenge st).1; [discriminate|].
  by intros [= <- _].
Qed.

(** On success the loop has built one spec for each authorization. *)
Lemma createOrderLoop_length (cl : acmecl.Interface W) issuer o authzURLs :
  ∀ st chals st',
    createOrderLoop cl issuer o authzURLs st = (inr chals, st') →
    length chals = length authzURLs
    ∧ Forall (λ cs, cmapi.ChallengeSpec.IssuerRef cs
                    = cmapi.OrderSpec.IssuerRef (cmapi.Order.Spec o)) chals.
Proof.
  induction authzURLs as [|authzURL rest IH]; intros st chals st'; simpl.
  - intros [= <- _]. split; [reflexivity | constructor].
  - rewrite bind_eq, call_eq.
    destruct (acmecl.GetAuthorization cl authzURL (world st)) as [[e|authz] w];
      simpl; [discriminate|].
    rewrite bind_eq.
    destruct (challengeSpecForAuthorization cl issuer o authz _)
      as [[e|cs] st1] eqn:Hbuild; simpl; [discriminate|].
    rewrite bind_eq.
    destruct (createOrderLoop cl issuer o rest st1) as [[e|chals'] st2]
      eqn:Hrest; simpl; [discriminate|].
    intros [= <- _]. apply IH in Hrest as [Hlen Hall].
    apply challengeSpecForAuthorization_issuerRef in Hbuild as [Href _].
    split; [simpl; by rewrite Hlen | by constructor].
Qed.

(** createOrder returns nil only after the whole walk succeeded: the
    Order then carries the remote order's URLs and state and one planned
    spec per authorization of the remote order, each naming the Order's
    issuer. *)
Theorem createOrder_success (cl : acmecl.Interface W) issuer o st o' st' :
  createOrder cl issuer o st = ((None, o'), st') →
  ∃ acmeOrder w1 chals,
    cmapi.OrderStatus.URL (cmapi.Order.Status o) = ""
    ∧ acmecl.CreateOrder cl (sets_List (identifierSet o)) (world st)
      = (inr acmeOrder, w1)
    ∧ cmapi.OrderStatus.Challenges (cmapi.Order.Status o') = Some chals
    ∧ length chals = length (acmeapi.Order.Authorizations acmeOrder)
    ∧ Forall (λ cs, cmapi.ChallengeSpec.IssuerRef cs
                    = cmapi.OrderSpec.IssuerRef (cmapi.Order.Spec o)) chals
    ∧ cmapi.OrderStatus.URL (cmapi.Order.Status o')
      = acmeapi.Order.URL acmeOrder
    ∧ cmapi.OrderStatus.FinalizeURL (cmapi.Order.Status o')
      = acmeapi.Order.FinalizeURL acmeOrder
    ∧ cmapi.OrderStatus.CertificateURL (cmapi.Order.Status o')
      = acmeapi.Order.CertificateURL acmeOrder
    ∧ cmapi.OrderStatus.State (cmapi.Order.Status o')
      = acmeapi.Order.Status acmeOrder.
Proof.
  unfold createOrder. case_bool_decide as Hurl; [discriminate|].
  rewrite bind_eq, call_eq.
  destruct (acmecl.CreateOrder cl _ (world st)) as [[err|acmeOrder] w1]
    eqn:Hcreate; simpl; [discriminate|].
  rewrite bind_eq. set (st1 := {| world := w1; calls := _ |}).
  rewrite bind_eq.
  destruct (createOrderLoop cl issuer _ _ _) as [[err|chals] st2] eqn:Hloop;
    simpl; [discriminate|].
  intros [= <- _]. exists acmeOrder, w1, chals.
  apply createOrderLoop_length in Hloop as [Hlen Hall].
  split; [exact Hurl|]. split; [reflexivity|]. split; [reflexivity|].
  split; [exact Hlen|]. split; [exact Hall|].
  simpl. rewrite setOrderStatus_eq. simpl.
  destruct (setOrderState_frame (cmapi.Order.Status o)
              (acmeapi.Order.Status acmeOrder) st1) as (Hs & _).
  repeat split. exact Hs.
Qed.

(** ** The identifiers of a new order *)

(** The identifiers handed to CreateOrder: every DNS name and the common
    name when it is not empty, each once, in ascending order. *)
Theorem createOrder_identifiers (o : cmapi.Order.t) :
  let ids := sets_List (identifierSet o) in
  NoDup ids
  ∧ Sorted (λ a b : string, String.leb a b) ids
  ∧ ∀ x, x ∈ ids
         ↔ x ∈ cmapi.OrderSpec.DNSNames (cmapi.Order.Spec o)
           ∨ (x = cmapi.OrderSpec.CommonName (cmapi.Order.Spec o)
              ∧ cmapi.OrderSpec.CommonName (cmapi.Order.Spec o) ≠ "").
Proof.
  intros ids. unfold ids, sets_List.
  assert (merge_sort (λ a b : string, String.leb a b)
            (elements (identifierSet o)) ≡ₚ elements (identifierSet o))
    as Hperm by apply merge_sort_Permutation.
  split; [|split].
  - rewrite Hperm. apply NoDup_elements.
  - apply Sorted_merge_sort. intros a b.
    destruct (String.leb_total a b) as [H|H]; rewrite H; [by left | by right].
  - intros x. rewrite Hperm, elem_of_elements. unfold identifierSet.
    case_bool_decide as Hcn.
    + rewrite elem_of_union, elem_of_list_to_set, elem_of_singleton.
      split; intros [?|?]; [by left | by right | by left | right; tauto].
    + rewrite elem_of_list_to_set. split; [by left|].
      intros [?|[_ ?]]; [done|]. by destruct Hcn.
Qed.

(** ** What Sync leaves alone *)

Lemma syncOrderStatus_sameObject (cl : acmecl.Interface W) o st :
  sameObject o (syncOrderStatus cl o st).1.2
  ∧ cmapi.OrderStatus.Challenges
      (cmapi.Order.Status (syncOrderStatus cl o st).1.2)
    = cmapi.OrderStatus.Challenges (cmapi.Order.Status o).
Proof.
  unfold syncOrderStatus. case_bool_decide; [done|].
  rewrite bind_eq.
  destruct (call _ _ st) as [[err|acmeOrder] st1]; simpl; [done|].
  rewrite bind_eq. simpl. split; [done|].
  rewrite setOrderStatus_eq. simpl.
  by destruct (setOrderState_frame (cmapi.Order.Status o)
                 (acmeapi.Order.Status acmeOrder) st1)
       as (_ & _ & _ & _ & Hc & _).
Qed.

Lemma createOrder_sameObject (cl : acmecl.Interface W) issuer o st :
  sameObject o (createOrder cl issuer o st).1.2.
Proof.
  unfold createOrder. case_bool_decide; [done|].
  rewrite bind_eq.
  destruct (call _ _ st) as [[err|acmeOrder] st1]; simpl; [done|].
  rewrite !bind_eq.
  by destruct (createOrderLoop _ _ _ _ _).1.
Qed.

Lemma syncChallenges_sameObject (c : Controller W) cl o st :
  sameObject o (syncChallenges c cl o st).1.2
  ∧ cmapi.OrderStatus.Challenges
      (cmapi.Order.Status (syncChallenges c cl o st).1.2)
    = cmapi.OrderStatus.Challenges (cmapi.Order.Status o).
Proof.
  unfold syncChallenges.
  destruct (challengeSelectorForOrder o) as [err|sel]; [done|].
  rewrite bind_eq.
  destruct (call _ _ st) as [[err|existing] st1]; simpl; [done|].
  rewrite bind_eq.
  destruct (createChallenges _ _ _ _ _ _) as [[errs existing'] st2]; simpl.
  destruct (utilerrors.NewAggregate _); [done|].
  destruct (readiness existing') as [recheck anyFailed].
  destruct (negb recheck && negb anyFailed); [done|].
  apply syncOrderStatus_sameObject.
Qed.

(** Sync works on the status only: the Order it would persist has the
    name, namespace and spec of the Order it was given; and once the Order
    has a URL, its planned challenge list is never touched again. *)
Theorem syncBody_keeps_object (c : Controller W) o st :
  let o' := (syncBody c o st).1.2 in
  cmapi.Order.Name o' = cmapi.Order.Name o
  ∧ cmapi.Order.Namespace o' = cmapi.Order.Namespace o
  ∧ cmapi.Order.Spec o' = cmapi.Order.Spec o
  ∧ (cmapi.OrderStatus.URL (cmapi.Order.Status o) ≠ "" →
     cmapi.OrderStatus.Challenges (cmapi.Order.Status o')
     = cmapi.OrderStatus.Challenges (cmapi.Order.Status o)).
Proof.
  assert (sameObject o (syncBody c o st).1.2
          ∧ (cmapi.OrderStatus.URL (cmapi.Order.Status o) ≠ "" →
             cmapi.OrderStatus.Challenges
               (cmapi.Order.Status (syncBody c o st).1.2)
             = cmapi.OrderStatus.Challenges (cmapi.Order.Status o)))
    as [(Hn & Hns & Hs) Hc]; [|done].
  unfold syncBody. rewrite bind_eq.
  destruct (call _ _ st) as [[err|issuer] st1]; simpl; [done|].
  rewrite bind_eq.
  destruct (call _ _ st1) as [[err|cl] st2]; simpl; [done|].
  case_bool_decide as Hurl.
  { split; [apply createOrder_sameObject | done]. }
  destruct (acme.IsFinalState _); [done|].
  case_bool_decide.
  { rewrite bind_eq.
    pose proof (syncOrderStatus_sameObject cl o st2) as [Ho Hc].
    destruct (syncOrderStatus cl o st2) as [[[e|] o1] st3]; simpl in *; done. }
  case_bool_decide.
  { rewrite !bind_eq. set (st3 := (call _ _ st2).2).
    pose proof (syncOrderStatus_sameObject cl o st3) as [Ho Hc].
    destruct (syncOrderStatus cl o st3) as [[[e|] o1] st4]; simpl in *;
      [done|].
    by destruct (call _ _ st2).1. }
  destruct (_ || _); [|done].
  pose proof (syncChallenges_sameObject c cl o st2) as [Ho Hc].
  split; [exact Ho | intros _; exact Hc].
Qed.

(** ** Failures before the dispatch *)

(** Whatever the Order's state, a failed issuer lookup or client
    construction ends Sync at once: the error is returned (the lookup's
    wrapped with the issuer's name), no further call is made and nothing
    is persisted. *)
Theorem Sync_lookup_failure (c : Controller W) o st :
  let issuerRef := cmapi.OrderSpec.IssuerRef (cmapi.Order.Spec o) in
  let ns := cmapi.Order.Namespace o in
  match helper_GetGenericIssuer c issuerRef ns (world st) with
  | (inl err, w1) =>
      Sync c o st
      = (Some (Errorf "error reading (cluster)issuer %q: %v"
                      [inl (cmapi.ObjectReference.Name issuerRef); inr err]),
         {| world := w1;
            calls := calls st ++ [GetGenericIssuerCall issuerRef ns] |})
  | (inr issuer, w1) =>
      match acmeHelper_ClientForIssuer c issuer w1 with
      | (inl err, w2) =>
          Sync c o st
          = (Some err,
             {| world := w2;
                calls := calls st ++ [GetGenericIssuerCall issuerRef ns;
                                      ClientForIssuerCall issuer] |})
      | (inr _, _) => True
      end
  end.
Proof.
  intros issuerRef ns.
  destruct (helper_GetGenericIssuer c issuerRef ns (world st))
    as [[err|issuer] w1] eqn:Hissuer.
  - rewrite Sync_eq. unfold syncBody. fold issuerRef ns.
    rewrite bind_eq, call_eq, Hissuer. simpl.
    unfold syncDeferred. by rewrite bool_decide_eq_true_2.
  - destruct (acmeHelper_ClientForIssuer c issuer w1)
      as [[err|cl] w2] eqn:Hclient; [|exact I].
    rewrite Sync_eq. unfold syncBody. fold issuerRef ns.
    rewrite bind_eq, call_eq, Hissuer. simpl.
    rewrite bind_eq, call_eq. simpl. rewrite Hclient. simpl.
    unfold syncDeferred. rewrite bool_decide_eq_true_2 by done.
    unfold ret. by rewrite <- app_assoc.
Qed.

(** ** Orders in Unknown state *)

(** An Order in Unknown state makes Sync fetch the remote order once and
    then return an error in every case: the fetch's own error when it
    failed, the "updated unknown order state" error when it succeeded, so
    that the new state is dispatched on at the next run. *)
Theorem Sync_unknown_state_always_errors
    (c : Controller W) o st issuer w1 cl w2 :
  let issuerRef := cmapi.OrderSpec.IssuerRef (cmapi.Order.Spec o) in
  let ns := cmapi.Order.Namespace o in
  let url := cmapi.OrderStatus.URL (cmapi.Order.Status o) in
  let retry :=
    Errorf "updated unknown order state. Retrying processing after applying back-off" [] in
  cmapi.OrderStatus.State (cmapi.Order.Status o) = Unknown →
  acme.IsFinalState Unknown = false →
  url ≠ "" →
  helper_GetGenericIssuer c issuerRef ns (world st) = (inr issuer, w1) →
  acmeHelper_ClientForIssuer c issuer w1 = (inr cl, w2) →
  is_Some (Sync c o st).1
  ∧ match (acmecl.GetOrder cl url w2).1 with
    | inl err => (Sync c o st).1 = Some err
    | inr _ => (Sync c o st).1 = Some retry
               ∨ ∃ rest, (Sync c o st).1 = Some (aggregate (retry :: rest))
    end
  ∧ ∃ rest,
      calls (Sync c o st).2
      = calls st ++ [GetGenericIssuerCall issuerRef ns;
                     ClientForIssuerCall issuer; GetOrderCall url] ++ rest
      ∧ (rest = [] ∨ ∃ o', rest = [OrdersUpdateCall ns o']).
Proof.
  intros issuerRef ns url retry Hstate Hfinal Hurl Hissuer Hclient.
  assert ((match (acmecl.GetOrder cl url w2).1 with
           | inl err => (Sync c o st).1 = Some err
           | inr _ => (Sync c o st).1 = Some retry
                      ∨ ∃ rest, (Sync c o st).1 = Some (aggregate (retry :: rest))
           end)
          ∧ ∃ rest,
              calls (Sync c o st).2
              = calls st ++ [GetGenericIssuerCall issuerRef ns;
                             ClientForIssuerCall issuer; GetOrderCall url]
                ++ rest
              ∧ (rest = [] ∨ ∃ o', rest = [OrdersUpdateCall ns o']))
    as [Hres Hcalls].
  { rewrite !Sync_eq.
    rewrite (syncBody_dispatch c o st issuer w1 cl w2 Hissuer Hclient).
    fold url.
    rewrite (bool_decide_eq_false_2 _ Hurl), Hstate, Hfinal.
    rewrite bool_decide_eq_true_2 by done.
    rewrite bind_eq.
    destruct (acmecl.GetOrder cl url w2) as [[err|acmeOrder] w3] eqn:Hget.
    - rewrite (syncOrderStatus_fetch_failed cl o err w3); [|done..].
      simpl. unfold syncDeferred. rewrite bool_decide_eq_true_2 by done.
      simpl. rewrite <- app_assoc. simpl. split; [reflexivity|].
      exists []. split; [reflexivity | by left].
    - rewrite (syncOrderStatus_fetched cl o acmeOrder w3); [|done..].
      fold url. simpl.
      set (st3 := (setOrderStatus _ _ _).2).
      set (o3 := withStatus o _).
      assert (calls st3 = calls st ++ [GetGenericIssuerCall issuerRef ns;
                                      ClientForIssuerCall issuer;
                                      GetOrderCall url]) as Hst3.
      { unfold st3. rewrite setOrderStatus_calls. simpl.
        by rewrite <- app_assoc. }
      unfold syncDeferred. case_bool_decide; simpl.
      + split; [by left|]. exists []. split; [|by left]. by rewrite Hst3.
      + rewrite bind_eq, call_eq. simpl. split.
        * right. case_match; eexists; reflexivity.
        * exists [OrdersUpdateCall ns o3]. split; [|right; by exists o3].
          by rewrite Hst3, <- app_assoc. }
  split; [|split; [exact Hres | exact Hcalls]].
  destruct (acmecl.GetOrder cl url w2).1.
  - by rewrite Hres.
  - destruct Hres as [->|[rest ->]]; by eexists.
Qed.

(** ** Persisting the status *)

(** The deferred update: when the body left the status as it was, Sync
    returns the body's outcome and issues no update; when the body changed
    the status and returns an error, the update is issued last and Sync
    returns the aggregate of the body's error and of the update's error,
    if any. *)
Theorem Sync_persists_changed_status (c : Controller W) o st err o' st' :
  syncBody c o st = ((err, o'), st') →
  (cmapi.Order.Status o = cmapi.Order.Status o' → Sync c o st = (err, st'))
  ∧ (cmapi.Order.Status o ≠ cmapi.Order.Status o' →
     calls (Sync c o st).2
     = calls st' ++ [OrdersUpdateCall (cmapi.Order.Namespace o') o']
     ∧ ∀ e, err = Some e →
         (Sync c o st).1
         = match (CMClient_Orders_Update c (cmapi.Order.Namespace o') o'
                    (world st')).1 with
           | inl updateErr => Some (aggregate [e; updateErr])
           | inr _ => Some (aggregate [e])
           end).
Proof.
  intros Hbody. rewrite !Sync_eq, Hbody. simpl. split.
  - intros Hsame. unfold syncDeferred. by rewrite bool_decide_eq_true_2.
  - intros Hchanged. split.
    + unfold syncDeferred. rewrite (bool_decide_eq_false_2 _ Hchanged).
      rewrite bind_eq, call_eq. simpl. by destruct err.
    + intros e ->. by apply syncDeferred_aggregates.
Qed.

(** ** The status synchronizer *)

(** syncOrderStatus either fails and leaves the Order as it was (with a
    blank URL it fails before any call), or succeeds after one GetOrder
    and then holds the remote order's URLs and its status string as state;
    the planned challenges, name, namespace and spec are kept. *)
Theorem syncOrderStatus_outcome (cl : acmecl.Interface W) o st :
  let url := cmapi.OrderStatus.URL (cmapi.Order.Status o) in
  match syncOrderStatus cl o st with
  | (Some err, o', st') =>
      o' = o
      ∧ (url = "" →
         st' = st
         ∧ err = Errorf "order URL is blank - order has not been created yet" [])
  | (None, o', st') =>
      url ≠ ""
      ∧ calls st' = calls st ++ [GetOrderCall url]
      ∧ sameObject o o'
      ∧ cmapi.OrderStatus.Challenges (cmapi.Order.Status o')
        = cmapi.OrderStatus.Challenges (cmapi.Order.Status o)
      ∧ ∃ acmeOrder w,
          acmecl.GetOrder cl url (world st) = (inr acmeOrder, w)
          ∧ cmapi.OrderStatus.URL (cmapi.Order.Status o')
            = acmeapi.Order.URL acmeOrder
          ∧ cmapi.OrderStatus.FinalizeURL (cmapi.Order.Status o')
            = acmeapi.Order.FinalizeURL acmeOrder
          ∧ cmapi.OrderStatus.CertificateURL (cmapi.Order.Status o')
            = acmeapi.Order.CertificateURL acmeOrder
          ∧ cmapi.OrderStatus.State (cmapi.Order.Status o')
            = acmeapi.Order.Status acmeOrder
  end.
Proof.
  intros url. unfold syncOrderStatus. fold url.
  case_bool_decide as Hurl; [done|].
  rewrite bind_eq, call_eq.
  destruct (acmecl.GetOrder cl url (world st)) as [[err|acmeOrder] w] eqn:Hget;
    simpl; [done|].
  rewrite bind_eq. simpl.
  set (st1 := {| world := w; calls := _ |}).
  rewrite setOrderStatus_calls, setOrderStatus_eq. simpl.
  destruct (setOrderState_frame (cmapi.Order.Status o)
              (acmeapi.Order.Status acmeOrder) st1)
    as (Hs & _ & _ & _ & Hc & _).
  split; [exact Hurl|]. split; [reflexivity|]. split; [done|].
  split; [exact Hc|]. exists acmeOrder, w. by rewrite Hs.
Qed.

(** ** buildChallenge *)

(** A Challenge built for an Order carries the given spec, the label that
    the Order's selector looks for, an owner reference to the Order and an
    empty state; Challenges built for one Order at different indices get
    different names. *)
Theorem buildChallenge_names (o : cmapi.Order.t) :
  (∀ i s,
     cmapi.Challenge.Spec (buildChallenge i o s) = s
     ∧ cmapi.ObjectMeta.Labels (cmapi.Challenge.ObjectMeta (buildChallenge i o s))
         !! orderNameLabelKey = Some (cmapi.Order.Name o)
     ∧ cmapi.OwnerReference.Name
         <$> cmapi.ObjectMeta.OwnerReferences
               (cmapi.Challenge.ObjectMeta (buildChallenge i o s))
       = [cmapi.Order.Name o]
     ∧ cmapi.ChallengeStatus.State
         (cmapi.Challenge.Status (buildChallenge i o s)) = "")
  ∧ (∀ i j s1 s2,
       cmapi.ObjectMeta.Name (cmapi.Challenge.ObjectMeta (buildChallenge i o s1))
       = cmapi.ObjectMeta.Name
           (cmapi.Challenge.ObjectMeta (buildChallenge j o s2)) →
       i = j).
Proof.
  split.
  - intros i s. simpl. split; [reflexivity|].
    split; [apply lookup_singleton_eq | done].
  - intros i j s1 s2. simpl. intros Hname.
    apply String.app_inj in Hname. apply String.app_inj in Hname.
    by apply (inj pretty) in Hname.
Qed.

(** ** The selector for an Order's Challenges *)

(** The selector is built from one requirement: the order-name label must
    equal the Order's name.  When the requirement is refused, so is the
    selector, with the same error. *)
Theorem challengeSelectorForOrder_requirement (o : cmapi.Order.t) :
  challengeSelectorForOrder o
  = match labels.NewRequirement orderNameLabelKey selection.Equals
            [cmapi.Order.Name o] with
    | inl err => inl err
    | inr req => inr [req]
    end.
Proof.
  unfold challengeSelectorForOrder, challengeLabelsForOrder.
  rewrite map_to_list_singleton. simpl.
  by destruct (labels.NewRequirement _ _ _).
Qed.

(** ** The creation loop *)

(** Every planned creation is attempted and lands in exactly one of the
    two lists: a failure is appended to the errors, a success to the
    existing Challenges; earlier entries of both lists are kept. *)
Theorem createChallenges_accounting (c : Controller W) o todo :
  ∀ errs existingChallenges st,
    let r := createChallenges c o todo errs existingChallenges st in
    ∃ newErrs created,
      r.1.1 = errs ++ newErrs
      ∧ r.1.2 = existingChallenges ++ created
      ∧ length newErrs + length created = length todo
      ∧ calls r.2
        = calls st ++
          ((λ p : nat * cmapi.ChallengeSpec.t,
              ChallengesCreateCall (cmapi.Order.Namespace o)
                (buildChallenge p.1 o p.2)) <$> todo).
Proof.
  induction todo as [|[i spec] rest IH]; intros errs ex st; simpl.
  - exists [], []. by rewrite !app_nil_r.
  - rewrite bind_eq, call_eq. simpl.
    destruct (CMClient_Challenges_Create c _ _ (world st)) as [[err|ch] w];
      simpl.
    + destruct (IH (errs ++ [err]) ex
                  {| world := w;
                     calls := calls st ++
                       [ChallengesCreateCall (cmapi.Order.Namespace o)
                          (buildChallenge i o spec)] |})
        as (newErrs & created & H1 & H2 & Hlen & Hcalls).
      exists (err :: newErrs), created.
      rewrite H1, H2, Hcalls. simpl.
      rewrite <- !app_assoc. repeat split. lia.
    + destruct (IH errs (ex ++ [ch])
                  {| world := w;
                     calls := calls st ++
                       [ChallengesCreateCall (cmapi.Order.Namespace o)
                          (buildChallenge i o spec)] |})
        as (newErrs & created & H1 & H2 & Hlen & Hcalls).
      exists newErrs, (ch :: created).
      rewrite H1, H2, Hcalls. simpl.
      rewrite <- !app_assoc. repeat split. simpl. lia.
Qed.

(** ** The readiness scan *)

Lemma readiness_fold existingChallenges :
  Failed ≠ Pending → Failed ≠ Processing →
  Expired ≠ Pending → Expired ≠ Processing →
  ∀ acc,
    let r := fold_left readinessStep existingChallenges acc in
    (r.1 = true
     ↔ acc.1 = true ∧ Forall (λ ch, ¬ challengeActive ch) existingChallenges)
    ∧ (r.2 = true
       ↔ acc.2 = true ∨ Exists challengeFailed existingChallenges).
Proof.
  intros HFP HFQ HEP HEQ.
  induction existingChallenges as [|ch rest IH]; intros acc; simpl.
  - split.
    + split; [by intros ? | by intros [? _]].
    + split; [by left | intros [?|?%Exists_nil]; done].
  - destruct (IH (readinessStep acc ch)) as [IH1 IH2].
    rewrite IH1, IH2, Forall_cons, Exists_cons.
    unfold readinessStep, challengeActive, challengeFailed.
    destruct acc as [recheck failed]. simpl.
    repeat case_bool_decide; simpl; split; split;
      intuition (try congruence; try discriminate).
Qed.

(** After the scan, [recheckOrderStatus] holds exactly when no Challenge
    is Pending or Processing, and [anyChallengesFailed] exactly when some
    Challenge is Failed or Expired. *)
Theorem readiness_spec (existingChallenges : list cmapi.Challenge.t) :
  Failed ≠ Pending → Failed ≠ Processing →
  Expired ≠ Pending → Expired ≠ Processing →
  ((readiness existingChallenges).1 = true
   ↔ Forall (λ ch, ¬ challengeActive ch) existingChallenges)
  ∧ ((readiness existingChallenges).2 = true
     ↔ Exists challengeFailed existingChallenges).
Proof.
  intros HFP HFQ HEP HEQ.
  destruct (readiness_fold existingChallenges HFP HFQ HEP HEQ (true, false))
    as [H1 H2].
  unfold readiness. split.
  - rewrite H1. simpl. tauto.
  - rewrite H2. simpl. split; [intros [?|?]; [discriminate | done] | by right].
Qed.

(** ** challengeSpecForAuthorization: failures and the spec built *)

Lemma fold_selectChallengeStep_is_Some cfg acmeSpec chs :
  ∀ acc, is_Some acc →
         is_Some (fold_left (selectChallengeStep cfg acmeSpec) chs acc).
Proof.
  induction chs as [|ch chs IH]; intros acc Hacc; simpl; [exact Hacc|].
  apply IH.
  destruct (selectChallengeStep_cases cfg acmeSpec acc ch)
    as [[_ ->]|[_ ->]]; [by eexists | exact Hacc].
Qed.

Lemma selectChallenge_None cfg acmeSpec chs :
  selectChallenge cfg acmeSpec chs = None
  ↔ Forall (λ ch, ¬ enabledInBoth cfg acmeSpec ch) chs.
Proof.
  split.
  - unfold selectChallenge.
    induction chs as [|ch chs IH]; simpl; [constructor|].
    intros Hfold.
    destruct (selectChallengeStep_cases cfg acmeSpec None ch)
      as [[Hen Heq]|[Hno Heq]]; rewrite Heq in Hfold.
    + destruct (fold_selectChallengeStep_is_Some cfg acmeSpec chs (Some ch))
        as [x Hx]; [by eexists|]. congruence.
    + constructor; [exact Hno | by apply IH].
  - intros Hall. unfold selectChallenge.
    by apply fold_selectChallengeStep_disabled.
Qed.

(** The three configuration failures happen before any client call: no
    solver configuration for the domain, an issuer without ACME
    configuration, and no offered option enabled on both sides (which is
    exactly when the selection comes out empty).  Otherwise one offered,
    enabled option is selected and the outcome is that of its key
    computation. *)
Theorem challengeSpecForAuthorization_failure_modes
    (cl : acmecl.Interface W) issuer o authz st :
  let run := challengeSpecForAuthorization cl issuer o authz st in
  let offered := acmeapi.Authorization.Challenges authz in
  match solverConfigurationForAuthorization
          (cmapi.OrderSpec.Config (cmapi.Order.Spec o)) authz with
  | inl err => run = (inl err, st)
  | inr cfg =>
      match cmapi.GenericIssuer.ACME issuer with
      | None => run = (inl (errNotACMEIssuer issuer), st)
      | Some acmeSpec =>
          (Forall (λ ch, ¬ enabledInBoth cfg acmeSpec ch) offered →
           run = (inl (errNoAcceptableChallenge
                         (acmeapi.AuthzID.Value
                            (acmeapi.Authorization.Identifier authz))), st))
          ∧ (Exists (enabledInBoth cfg acmeSpec) offered →
             ∃ ch, ch ∈ offered ∧ enabledInBoth cfg acmeSpec ch
                   ∧ run.2 = (keyForChallenge cl ch st).2
                   ∧ match (keyForChallenge cl ch st).1 with
                     | inl err => run.1 = inl err
                     | inr key => ∃ cs, run.1 = inr cs
                                        ∧ cmapi.ChallengeSpec.Key cs = key
                     end)
      end
  end.
Proof.
  intros run offered. unfold run, challengeSpecForAuthorization.
  destruct (solverConfigurationForAuthorization _ authz) as [err|cfg];
    [reflexivity|].
  destruct (cmapi.GenericIssuer.ACME issuer) as [acmeSpec|]; [|reflexivity].
  fold offered. split.
  - intros Hnone. apply selectChallenge_None in Hnone. by rewrite Hnone.
  - intros Hsome.
    destruct (selectChallenge cfg acmeSpec offered) as [ch|] eqn:Hsel.
    + apply selectChallenge_Some in Hsel as [Hin Hen].
      exists ch. split; [exact Hin|]. split; [exact Hen|].
      rewrite bind_eq.
      destruct (keyForChallenge cl ch st).1 as [err|key]; simpl;
        [done|]. split; [reflexivity|]. by eexists.
    + apply selectChallenge_None in Hsel.
      apply Exists_exists in Hsome as (ch & Hin & Hen).
      rewrite Forall_forall in Hsel. by destruct (Hsel ch Hin).
Qed.

(** A spec that was built names the authorization it answers: its URL,
    its identifier as DNS name (without the wildcard prefix used for the
    lookup), its wildcard flag; it carries the Order's issuer reference and
    the solver configuration found for the lookup key; type, URL and token
    are those of one offered option, enabled on both sides, and the key is
    what the client computed for that option. *)
Theorem challengeSpecForAuthorization_spec_fields
    (cl : acmecl.Interface W) issuer o authz st cs st' :
  challengeSpecForAuthorization cl issuer o authz st = (inr cs, st') →
  cmapi.ChallengeSpec.AuthzURL cs = acmeapi.Authorization.URL authz
  ∧ cmapi.ChallengeSpec.DNSName cs
    = acmeapi.AuthzID.Value (acmeapi.Authorization.Identifier authz)
  ∧ cmapi.ChallengeSpec.Wildcard cs = acmeapi.Authorization.Wildcard authz
  ∧ cmapi.ChallengeSpec.IssuerRef cs
    = cmapi.OrderSpec.IssuerRef (cmapi.Order.Spec o)
  ∧ solverConfigurationForAuthorization
      (cmapi.OrderSpec.Config (cmapi.Order.Spec o)) authz
    = inr (cmapi.ChallengeSpec.Config cs)
  ∧ ∃ acmeSpec ch,
      cmapi.GenericIssuer.ACME issuer = Some acmeSpec
      ∧ ch ∈ acmeapi.Authorization.Challenges authz
      ∧ enabledInBoth (cmapi.ChallengeSpec.Config cs) acmeSpec ch
      ∧ cmapi.ChallengeSpec.Type_ cs = acmeapi.Challenge.Type_ ch
      ∧ cmapi.ChallengeSpec.URL cs = acmeapi.Challenge.URL ch
      ∧ cmapi.ChallengeSpec.Token cs = acmeapi.Challenge.Token ch
      ∧ keyForChallenge cl ch st = (inr (cmapi.ChallengeSpec.Key cs), st').
Proof.
  unfold challengeSpecForAuthorization.
  destruct (solverConfigurationForAuthorization _ authz) as [err|cfg];
    [discriminate|].
  destruct (cmapi.GenericIssuer.ACME issuer) as [acmeSpec|]; [|discriminate].
  destruct (selectChallenge cfg acmeSpec _) as [ch|] eqn:Hsel; [|discriminate].
  apply selectChallenge_Some in Hsel as [Hin Hen].
  unfold bind.
  destruct (keyForChallenge cl ch st) as [[err|key] st1] eqn:Hkey;
    [discriminate|].
  intros [= <- <-]. simpl.
  do 5 (split; [reflexivity|]).
  exists acmeSpec, ch. by repeat split.
Qed.

(** ** Pending and Processing orders: waiting, polling, failing *)

Lemma specsToCreate_empty existingChallenges o :
  (∀ s, default [] (cmapi.OrderStatus.Challenges (cmapi.Order.Status o))
          !! 0%nat = Some s →
        hasExistingChallenge existingChallenges s) →
  specsToCreate existingChallenges o = ∅.
Proof.
  intros Hfirst. unfold specsToCreate.
  destruct (default [] _) as [|s rest]; simpl; [reflexivity|].
  rewrite (proj2 (createWanted_false s existingChallenges)); [reflexivity|].
  by apply Hfirst.
Qed.

Lemma NewAggregate_errors (errs : list error) :
  utilerrors.NewAggregate (Some <$> errs)
  = match errs with [] => None | _ => Some (aggregate errs) end.
Proof.
  assert (omap id (Some <$> errs) = errs) as Hkeep.
  { induction errs as [|e errs IH]; [reflexivity|].
    change (e :: omap id (Some <$> errs) = e :: errs). by rewrite IH. }
  unfold utilerrors.NewAggregate. rewrite Hkeep. by destruct errs.
Qed.

(** What the body of Sync does for a Pending or Processing Order once the
    existing Challenges are listed. *)
Lemma syncBody_pending (c : Controller W) o st issuer w1 cl w2 sel existing w3 :
  let issuerRef := cmapi.OrderSpec.IssuerRef (cmapi.Order.Spec o) in
  let ns := cmapi.Order.Namespace o in
  let state := cmapi.OrderStatus.State (cmapi.Order.Status o) in
  state = Pending ∨ state = Processing →
  state ≠ Unknown → state ≠ Ready →
  acme.IsFinalState state = false →
  cmapi.OrderStatus.URL (cmapi.Order.Status o) ≠ "" →
  helper_GetGenericIssuer c issuerRef ns (world st) = (inr issuer, w1) →
  acmeHelper_ClientForIssuer c issuer w1 = (inr cl, w2) →
  challengeSelectorForOrder o = inr sel →
  challengeLister_List c ns sel w2 = (inr existing, w3) →
  syncBody c o st
  = let r := createChallenges c o (map_to_list (specsToCreate existing o))
               [] existing
               {| world := w3;
                  calls := calls st ++ [GetGenericIssuerCall issuerRef ns;
                                        ClientForIssuerCall issuer;
                                        ChallengesListCall ns sel] |} in
    match r.1.1 with
    | [] =>
        if negb (readiness r.1.2).1 && negb (readiness r.1.2).2
        then (None, o, r.2)
        else syncOrderStatus cl o r.2
    | _ =>
        (Some (Errorf "error ensuring Challenge resources for Order: %v"
                      [inr (aggregate r.1.1)]), o, r.2)
    end.
Proof.
  intros issuerRef ns state Hstate HU HR Hfinal Hurl
    Hissuer Hclient Hsel Hlist.
  rewrite (syncBody_dispatch c o st issuer w1 cl w2 Hissuer Hclient).
  fold state ns issuerRef.
  rewrite (bool_decide_eq_false_2 _ Hurl), Hfinal.
  rewrite (bool_decide_eq_false_2 _ HU), (bool_decide_eq_false_2 _ HR).
  assert (bool_decide (state = Pending) || bool_decide (state = Processing)
          = true) as ->.
  { destruct Hstate as [Hs|Hs]; rewrite (bool_decide_eq_true_2 _ Hs);
      [reflexivity | by rewrite orb_true_r]. }
  unfold syncChallenges. rewrite Hsel. fold ns.
  rewrite bind_eq, call_eq. simpl. rewrite Hlist. simpl.
  rewrite bind_eq, <- app_assoc. simpl.
  destruct (createChallenges c o _ [] existing _) as [[errs existing'] st4].
  simpl. rewrite NewAggregate_errors.
  destruct errs as [|e errs]; [|reflexivity].
  by destruct (readiness existing') as [[] []].
Qed.


(** With nothing to create (no planned entry, or the first planned entry
    already has its Challenge), the existing Challenges decide: if one is
    Pending or Processing and none is Failed or Expired, Sync returns nil
    after listing them, without polling the server or persisting anything;
    if none is Pending or Processing, or one is Failed or Expired, Sync
    polls the server with GetOrder right after the listing. *)
Theorem Sync_pending_nothing_to_create
    (c : Controller W) o st issuer w1 cl w2 sel existing w3 :
  let issuerRef := cmapi.OrderSpec.IssuerRef (cmapi.Order.Spec o) in
  let ns := cmapi.Order.Namespace o in
  let url := cmapi.OrderStatus.URL (cmapi.Order.Status o) in
  let state := cmapi.OrderStatus.State (cmapi.Order.Status o) in
  state = Pending ∨ state = Processing →
  state ≠ Unknown → state ≠ Ready →
  acme.IsFinalState state = false →
  url ≠ "" →
  helper_GetGenericIssuer c issuerRef ns (world st) = (inr issuer, w1) →
  acmeHelper_ClientForIssuer c issuer w1 = (inr cl, w2) →
  challengeSelectorForOrder o = inr sel →
  challengeLister_List c ns sel w2 = (inr existing, w3) →
  (∀ s, default [] (cmapi.OrderStatus.Challenges (cmapi.Order.Status o))
          !! 0%nat = Some s →
        hasExistingChallenge existing s) →
  Failed ≠ Pending → Failed ≠ Processing →
  Expired ≠ Pending → Expired ≠ Processing →
  (Exists challengeActive existing →
   Forall (λ ch, ¬ challengeFailed ch) existing →
   Sync c o st
   = (None,
      {| world := w3;
         calls := calls st ++ [GetGenericIssuerCall issuerRef ns;
                               ClientForIssuerCall issuer;
                               ChallengesListCall ns sel] |}))
  ∧ (Forall (λ ch, ¬ challengeActive ch) existing
     ∨ Exists challengeFailed existing →
     ∃ rest,
       calls (Sync c o st).2
       = calls st ++ [GetGenericIssuerCall issuerRef ns;
                      ClientForIssuerCall issuer;
                      ChallengesListCall ns sel; GetOrderCall url] ++ rest
       ∧ (rest = [] ∨ ∃ o', rest = [OrdersUpdateCall ns o'])).
Proof.
  intros issuerRef ns url state Hstate HU HR Hfinal Hurl
    Hissuer Hclient Hsel Hlist Hfirst HFP HFQ HEP HEQ.
  rewrite !Sync_eq.
  rewrite (syncBody_pending c o st issuer w1 cl w2 sel existing w3
             Hstate HU HR Hfinal Hurl Hissuer Hclient Hsel Hlist).
  fold issuerRef ns. cbv zeta.
  rewrite (specsToCreate_empty existing o Hfirst), map_to_list_empty.
  simpl.
  destruct (readiness_spec existing HFP HFQ HEP HEQ) as [Hre Hfa].
  set (st3 := {| world := w3; calls := _ |}).
  split.
  - intros Hactive Hnofail.
    assert ((readiness existing).1 = false) as ->.
    { destruct (readiness existing).1; [|reflexivity].
      pose proof (proj1 Hre eq_refl) as Hnone.
      apply Exists_exists in Hactive as (ch & Hin & Hch).
      rewrite Forall_forall in Hnone. by destruct (Hnone ch Hin). }
    assert ((readiness existing).2 = false) as ->.
    { destruct (readiness existing).2; [|reflexivity].
      pose proof (proj1 Hfa eq_refl) as Hsome.
      apply Exists_exists in Hsome as (ch & Hin & Hch).
      rewrite Forall_forall in Hnofail. by destruct (Hnofail ch Hin). }
    simpl. unfold syncDeferred. by rewrite bool_decide_eq_true_2.
  - intros Hpoll.
    assert (negb (readiness existing).1 && negb (readiness existing).2
            = false) as ->.
    { destruct Hpoll as [Hnone|Hsome].
      - by rewrite (proj2 Hre Hnone).
      - rewrite (proj2 Hfa Hsome). by rewrite andb_false_r. }
    assert (calls (syncOrderStatus cl o st3).2
            = calls st ++ [GetGenericIssuerCall issuerRef ns;
                           ClientForIssuerCall issuer;
                           ChallengesListCall ns sel; GetOrderCall url])
      as Hst4.
    { unfold syncOrderStatus. fold url.
      rewrite (bool_decide_eq_false_2 _ Hurl).
      rewrite bind_eq, call_eq. simpl.
      destruct (acmecl.GetOrder cl url w3).1; simpl.
      - by rewrite <- app_assoc.
      - rewrite bind_eq. simpl. rewrite setOrderStatus_calls. simpl.
        by rewrite <- app_assoc. }
    pose proof (syncOrderStatus_sameObject cl o st3) as [(_ & Hns & _) _].
    destruct (syncDeferred_calls c o (syncOrderStatus cl o st3).1.1
                (syncOrderStatus cl o st3).1.2 (syncOrderStatus cl o st3).2)
      as [Hd|Hd]; rewrite Hd, Hst4.
    + exists []. split; [reflexivity | by left].
    + eexists [_]. split; [by rewrite <- app_assoc|].
      right. rewrite Hns. by eexists.
Qed.

(** ** Orders left without planned challenges *)

Lemma syncOrderStatus_extends (P : Event → bool) (cl : acmecl.Interface W) o st :
  (∀ url, P (GetOrderCall url) = true) →
  callsExtend P st (syncOrderStatus cl o st).2.
Proof.
  intros HP. destruct (syncOrderStatus_calls cl o st) as [Hs|Hs].
  - by apply callsExtend_same_calls.
  - eexists [_]. split; [exact Hs|]. constructor; [apply HP | constructor].
Qed.

Lemma syncChallenges_without_plan (c : Controller W) cl o st :
  default [] (cmapi.OrderStatus.Challenges (cmapi.Order.Status o)) = [] →
  callsExtend notChallengeCreate st (syncChallenges c cl o st).2.
Proof.
  intros Hplan. unfold syncChallenges.
  destruct (challengeSelectorForOrder o) as [err|sel];
    [apply callsExtend_refl|].
  rewrite bind_eq.
  pose proof (callsExtend_call notChallengeCreate
                (ChallengesListCall (cmapi.Order.Namespace o) sel)
                (challengeLister_List c (cmapi.Order.Namespace o) sel)
                st eq_refl) as Hlist.
  destruct (call _ _ st) as [[err|existing] st1]; simpl in *; [exact Hlist|].
  rewrite (specsToCreate_empty existing o), map_to_list_empty
    by (rewrite Hplan; intros s Hs; discriminate Hs).
  simpl. rewrite bind_eq. simpl.
  destruct (readiness existing) as [recheck anyFailed].
  destruct (negb recheck && negb anyFailed); [exact Hlist|].
  eapply callsExtend_trans; [exact Hlist|].
  by apply syncOrderStatus_extends.
Qed.

(** An Order that has a URL but no planned challenges (as createOrder
    leaves it when the authorization walk fails after the remote order was
    created) stays that way: whatever its state and whatever the
    collaborators answer, Sync creates no Challenge for it and the Order it
    would persist still has no planned challenges. *)
Theorem Sync_without_plan_creates_nothing (c : Controller W) o st :
  cmapi.OrderStatus.URL (cmapi.Order.Status o) ≠ "" →
  default [] (cmapi.OrderStatus.Challenges (cmapi.Order.Status o)) = [] →
  callsExtend notChallengeCreate st (Sync c o st).2
  ∧ cmapi.OrderStatus.Challenges (cmapi.Order.Status (syncBody c o st).1.2)
    = cmapi.OrderStatus.Challenges (cmapi.Order.Status o).
Proof.
  intros Hurl Hplan. split.
  - rewrite Sync_eq.
    apply (callsExtend_trans _ st (syncBody c o st).2).
    + unfold syncBody. rewrite bind_eq.
      set (lookup := call _ _ st).
      assert (callsExtend notChallengeCreate st lookup.2) as H1
        by (by apply callsExtend_call).
      destruct lookup as [[err|issuer] st1]; simpl in *; [exact H1|].
      rewrite bind_eq.
      set (build := call _ _ st1).
      assert (callsExtend notChallengeCreate st1 build.2) as H2
        by (by apply callsExtend_call).
      eapply callsExtend_trans; [exact H1|]. clear H1.
      destruct build as [[err|cl] st2]; simpl in *; [exact H2|].
      eapply callsExtend_trans; [exact H2|]. clear H2.
      rewrite (bool_decide_eq_false_2 _ Hurl).
      destruct (acme.IsFinalState _); [apply callsExtend_refl|].
      case_bool_decide.
      { rewrite bind_eq.
        pose proof (syncOrderStatus_extends notChallengeCreate cl o st2
                      (λ _, eq_refl)) as Hs.
        by destruct (syncOrderStatus cl o st2) as [[[e|] o1] st3]. }
      case_bool_decide.
      { rewrite bind_eq.
        set (fin := call _ _ st2).
        assert (callsExtend notChallengeCreate st2 fin.2) as Hf
          by (by apply callsExtend_call).
        eapply callsExtend_trans; [exact Hf|].
        rewrite bind_eq.
        pose proof (syncOrderStatus_extends notChallengeCreate cl o fin.2
                      (λ _, eq_refl)) as Hs.
        destruct (syncOrderStatus cl o fin.2) as [[[e|] o1] st3];
          simpl in *; [exact Hs|].
        by destruct fin.1. }
      destruct (_ || _); [|apply callsExtend_refl].
      by apply syncChallenges_without_plan.
    + destruct (syncDeferred_calls c o (syncBody c o st).1.1
                  (syncBody c o st).1.2 (syncBody c o st).2) as [Hd|Hd].
      * by apply callsExtend_same_calls.
      * eexists [_]. split; [exact Hd|].
        constructor; [reflexivity | constructor].
  - by apply syncBody_keeps_object.
Qed.

End MoreProperties.

(** * Examples on the concrete world *)

Lemma solverConfigurationForAuthorization_first_match_example :
  solverConfigurationForAuthorization Fixture.domainConfigs (Fixture.authz true)
  = inr Fixture.cfgBoth
  ∧ ∃ i d, Fixture.domainConfigs !! i = Some d
           ∧ "*.example.com" ∈ cmapi.DomainSolverConfig.Domains d
           ∧ ∀ j d', (j < i)%nat → Fixture.domainConfigs !! j = Some d' →
                     "*.example.com" ∉ cmapi.DomainSolverConfig.Domains d'.
Proof.
  pose proof (solverConfigurationForAuthorization_first_match
                Fixture.domainConfigs (Fixture.authz true)) as H.
  change (solverConfigurationForAuthorization Fixture.domainConfigs
            (Fixture.authz true)) with (@inr error _ Fixture.cfgBoth) in H.
  destruct H as (i & d & Hi & Hin & _ & Hbefore).
  split; [reflexivity|]. exists i, d. auto.
Defined.

Lemma challengeSpecForAuthorization_last_match_wins_example :
  selectChallenge Fixture.cfgBoth Fixture.acmeBoth
    (acmeapi.Authorization.Challenges (Fixture.authz false))
  = Some Fixture.http01
  ∧ ∀ cs st',
      challengeSpecForAuthorization
        (Fixture.client "pending" Fixture.authzURLs2 true true) Fixture.issuer
        (Fixture.order (Fixture.status "" "" None None)) (Fixture.authz false)
        Fixture.st0 = (inr cs, st') →
      cmapi.ChallengeSpec.Type_ cs = "http-01".
Proof.
  split.
  - apply (proj1 (@challengeSpecForAuthorization_last_match_wins Fixture.World)
             (Fixture.client "pending" Fixture.authzURLs2 true true)
             Fixture.issuer
             (Fixture.order (Fixture.status "" "" None None))
             (Fixture.authz false) Fixture.cfgBoth Fixture.acmeBoth
             [Fixture.dns01] Fixture.http01 [] Fixture.st0).
    + reflexivity.
    + reflexivity.
    + reflexivity.
    + left. repeat split; by eexists.
    + constructor.
  - apply (proj2 (@challengeSpecForAuthorization_last_match_wins Fixture.World)
             (Fixture.client "pending" Fixture.authzURLs2 true true)
             Fixture.issuer
             (Fixture.order (Fixture.status "" "" None None))
             (Fixture.authz false) Fixture.cfgBoth Fixture.acmeBoth
             Fixture.dns01 Fixture.http01 Fixture.st0);
      try reflexivity; by eexists.
Defined.

Lemma challengeSpecForAuthorization_type_supported_example :
  match (challengeSpecForAuthorization
           (Fixture.client "pending" Fixture.authzURLs2 true true)
           Fixture.issuer
           (Fixture.order (Fixture.status "" "" None None))
           (Fixture.authz false) Fixture.st0).1 with
  | inr cs => cmapi.ChallengeSpec.Type_ cs = "http-01"
              ∨ cmapi.ChallengeSpec.Type_ cs = "dns-01"
  | inl _ => False
  end.
Proof.
  exact (proj1 (@challengeSpecForAuthorization_type_supported Fixture.World
                  (Fixture.client "pending" Fixture.authzURLs2 true true)
                  Fixture.issuer
                  (Fixture.order (Fixture.status "" "" None None))
                  (Fixture.authz false)) Fixture.st0 _ _ eq_refl).
Defined.

Lemma setOrderState_keeps_failure_time_example :
  cmapi.OrderStatus.FailureTime
    (@setOrderState Fixture.World Fixture.clock Fixture.predicates
       (Fixture.status "https://acme.test/order/1" "failed" None (Some 3%Z))
       "pending" Fixture.st0).1
  = Some 3%Z.
Proof.
  apply (proj1 (@setOrderState_keeps_failure_time Fixture.World Fixture.clock
                  Fixture.predicates)).
  reflexivity.
Defined.


Lemma specsToCreate_stops_at_first_match_example :
  let planned := [Fixture.spec "a.example.com"; Fixture.spec "b.example.com";
                  Fixture.spec "c.example.com"] in
  let existing := [Fixture.challenge "b.example.com" "pending"] in
  let o := Fixture.order
             (Fixture.status "https://acme.test/order/1" "pending"
                             (Some planned) None) in
  specsToCreate existing o !! 0%nat = Some (Fixture.spec "a.example.com")
  ∧ specsToCreate existing o !! 1%nat = None
  ∧ specsToCreate existing o !! 2%nat = None.
Proof.
  intros planned existing o.
  destruct (@specsToCreate_stops_at_first_match Fixture.World
              (Fixture.controller true true
                 (Fixture.client "pending" [] true true) existing)
              existing o planned 1%nat) as [Hsel _].
  - reflexivity.
  - simpl. lia.
  - intros j s Hj Hl (ch & Hin & Hname).
    apply list_elem_of_singleton in Hin. subst ch.
    destruct j as [|j]; [|lia]. injection Hl as <-. discriminate Hname.
  - intros s [= <-]. exists (Fixture.challenge "b.example.com" "pending").
    split; [by left | reflexivity].
  - split; [exact (Hsel 0%nat)|]. split; [exact (Hsel 1%nat) | exact (Hsel 2%nat)].
Defined.

Lemma Sync_ready_finalize_then_status_sync_example :
  let cl := Fixture.client "valid" [] false true in
  let c := Fixture.controller true true cl [] in
  let o := Fixture.order
             (Fixture.status "https://acme.test/order/1" "ready" None None) in
  let e := Errorf "error finalizing order: %v"
                  [inr (External "finalize: bad CSR")] in
  (Fixture.runSync c o Fixture.st0).1 = Some e
  ∨ ∃ rest, (Fixture.runSync c o Fixture.st0).1 = Some (aggregate (e :: rest)).
Proof.
  intros cl c o e.
  exact (proj2 (@Sync_ready_finalize_then_status_sync Fixture.World
                  Fixture.clock Fixture.consts Fixture.predicates
                  Fixture.validation c o Fixture.st0 Fixture.issuer 7%nat cl
                  7%nat (inl (External "finalize: bad CSR")) 7%nat
                  (inr (Fixture.acmeOrder "valid" "https://acme.test/order/1" []))
                  7%nat
                  eq_refl ltac:(discriminate) eq_refl ltac:(discriminate)
                  eq_refl eq_refl eq_refl eq_refl)).
Defined.

Lemma Sync_final_state_after_issuer_lookup_example :
  let cl := Fixture.client "valid" [] true true in
  let o := Fixture.order
             (Fixture.status "https://acme.test/order/1" "valid" None None) in
  Fixture.runSync (Fixture.controller true true cl []) o Fixture.st0
  = (None,
     {| world := 7%nat;
        calls := [GetGenericIssuerCall Fixture.issuerRef "default";
                  ClientForIssuerCall Fixture.issuer] |}).
Proof.
  intros cl o.
  exact (@Sync_final_state_after_issuer_lookup Fixture.World Fixture.clock
           Fixture.consts Fixture.predicates Fixture.validation
           (Fixture.controller true true cl []) o Fixture.st0
           ltac:(discriminate) eq_refl).
Defined.

Lemma Sync_final_state_makes_calls_and_may_fail :
  let cl := Fixture.client "valid" [] true true in
  let o := Fixture.order
             (Fixture.status "https://acme.test/order/1" "valid" None None) in
  cmapi.OrderStatus.URL (cmapi.Order.Status o) ≠ ""
  ∧ @acme.IsFinalState Fixture.predicates
      (cmapi.OrderStatus.State (cmapi.Order.Status o)) = true
  ∧ calls (Fixture.runSync (Fixture.controller true true cl []) o
             Fixture.st0).2
    = [GetGenericIssuerCall Fixture.issuerRef "default";
       ClientForIssuerCall Fixture.issuer]
  ∧ (Fixture.runSync (Fixture.controller false true cl []) o Fixture.st0).1
    = Some (Errorf "error reading (cluster)issuer %q: %v"
                   [inl "letsencrypt"; inr (External "issuer not found")]).
Proof.
  intros cl o. split; [discriminate|]. split; [reflexivity|].
  split; reflexivity.
Qed.

Lemma createOrder_partial_failure_example :
  let cl := Fixture.client "pending" Fixture.authzURLs2 true true in
  let o := Fixture.order (Fixture.status "" "" None None) in
  ∃ o' st',
    @createOrder Fixture.World Fixture.clock Fixture.predicates
      cl Fixture.issuer o Fixture.st0
    = ((Some (External "authorization not found"), o'), st')
    ∧ cmapi.OrderStatus.Challenges (cmapi.Order.Status o') = None
    ∧ cmapi.OrderStatus.URL (cmapi.Order.Status o')
      = "https://acme.test/order/1".
Proof.
  intros cl o.
  destruct (@createOrder_partial_failure Fixture.World Fixture.clock
              Fixture.predicates cl Fixture.issuer o Fixture.st0
              (Fixture.acmeOrder "pending" "https://acme.test/order/1"
                 Fixture.authzURLs2)
              7%nat (External "authorization not found")
              {| world := 7%nat;
                 calls := [CreateOrderCall ["a.example.com"; "example.com"];
                           GetAuthorizationCall "https://acme.test/authz/1";
                           HTTP01ChallengeResponseCall "tok-http";
                           GetAuthorizationCall "https://acme.test/authz/2"] |}
              eq_refl eq_refl)
    as (o' & Hrun & Hchals & _ & Hurl & _).
  - apply createOrderLoop_fails. vm_compute. reflexivity.
  - exists o'. eexists. split; [exact Hrun|]. split; [|exact Hurl].
    rewrite Hchals. reflexivity.
Defined.

(** Claim C6 (code bug).  Sync is run on a new Order ([Status.URL] empty):
    the order is created at the server, its one authorization is fetched
    and its challenge spec built, so the body returns no error and the
    status has changed.  The deferred update is issued and fails with
    "update conflict"; Sync still returns nil: the persistence error is
    lost, where the claim has it surfaced. *)
Theorem Sync_loses_update_error_without_domain_error :
  let cl := Fixture.client "pending" ["https://acme.test/authz/1"] true true in
  let c := Fixture.controller true false cl [] in
  let o := Fixture.order (Fixture.status "" "" None None) in
  let r := Fixture.runSync c o Fixture.st0 in
  r.1 = None
  ∧ ∃ o', last (calls r.2) = Some (OrdersUpdateCall "default" o')
          ∧ cmapi.Order.Status o' ≠ cmapi.Order.Status o
          ∧ CMClient_Orders_Update c "default" o' (world r.2)
            = (inl (External "update conflict"), world r.2).
Proof.
  intros cl c o r. split; [reflexivity|].
  eexists. split; [reflexivity|]. split; [discriminate | reflexivity].
Qed.

(** * Further examples on the concrete world *)

Lemma Sync_new_order_calls_example :
  ∃ rest,
    calls (Fixture.runSync
             (Fixture.controller true true
                (Fixture.client "pending" Fixture.authzURLs2 true true) [])
             (Fixture.order (Fixture.status "" "" None None)) Fixture.st0).2
    = MoreFixture.lookups
      ++ [CreateOrderCall ["a.example.com"; "example.com"]] ++ rest
    ∧ Forall (λ ev, isAuthorizationWork ev || isOrdersUpdate ev = true) rest.
Proof.
  exact (@Sync_new_order_calls Fixture.World Fixture.clock Fixture.consts
           Fixture.predicates Fixture.validation
           (Fixture.controller true true
              (Fixture.client "pending" Fixture.authzURLs2 true true) [])
           (Fixture.order (Fixture.status "" "" None None)) Fixture.st0
           Fixture.issuer 7%nat
           (Fixture.client "pending" Fixture.authzURLs2 true true) 7%nat
           eq_refl eq_refl eq_refl).
Defined.

Lemma createOrder_success_example :
  ∃ chals,
    cmapi.OrderStatus.Challenges
      (cmapi.Order.Status
         (@createOrder Fixture.World Fixture.clock Fixture.predicates
            (Fixture.client "pending" ["https://acme.test/authz/1"] true true)
            Fixture.issuer (Fixture.order (Fixture.status "" "" None None))
            Fixture.st0).1.2)
    = Some chals
    ∧ length chals = 1%nat.
Proof.
  destruct (@createOrder_success Fixture.World Fixture.clock
              Fixture.predicates
              (Fixture.client "pending" ["https://acme.test/authz/1"] true true)
              Fixture.issuer (Fixture.order (Fixture.status "" "" None None))
              Fixture.st0 _ _ eq_refl)
    as (acmeOrder & w1 & chals & _ & Hcreate & Hchals & Hlen & _).
  exists chals. split; [exact Hchals|].
  injection Hcreate as <- _. exact Hlen.
Defined.

Lemma Sync_unknown_state_always_errors_example :
  is_Some (Fixture.runSync
             (Fixture.controller true true
                (Fixture.client "pending" [] true true) [])
             (Fixture.order
                (Fixture.status "https://acme.test/order/1" "" None None))
             Fixture.st0).1.
Proof.
  exact (proj1 (@Sync_unknown_state_always_errors Fixture.World Fixture.clock
                  Fixture.consts Fixture.predicates Fixture.validation
                  (Fixture.controller true true
                     (Fixture.client "pending" [] true true) [])
                  (Fixture.order
                     (Fixture.status "https://acme.test/order/1" "" None None))
                  Fixture.st0 Fixture.issuer 7%nat
                  (Fixture.client "pending" [] true true) 7%nat
                  eq_refl eq_refl ltac:(discriminate) eq_refl eq_refl)).
Defined.

Lemma Sync_persists_changed_status_example :
  (Fixture.runSync
     (Fixture.controller true false
        (Fixture.client "pending" Fixture.authzURLs2 true true) [])
     (Fixture.order (Fixture.status "" "" None None)) Fixture.st0).1
  = Some (aggregate [External "authorization not found";
                     External "update conflict"]).
Proof.
  refine (proj2 (proj2 (@Sync_persists_changed_status Fixture.World
                          Fixture.clock Fixture.consts Fixture.predicates
                          Fixture.validation
                          (Fixture.controller true false
                             (Fixture.client "pending" Fixture.authzURLs2
                                true true) [])
                          (Fixture.order (Fixture.status "" "" None None))
                          Fixture.st0 _ _ _ eq_refl)
                   ltac:(discriminate))
            (External "authorization not found") eq_refl).
Defined.

Lemma readiness_spec_example :
  (@readiness Fixture.consts
     [Fixture.challenge "a.example.com" "valid";
      Fixture.challenge "b.example.com" "expired"]).1 = true
  ∧ (@readiness Fixture.consts
       [Fixture.challenge "a.example.com" "valid";
        Fixture.challenge "b.example.com" "expired"]).2 = true.
Proof.
  destruct (@readiness_spec Fixture.consts
              [Fixture.challenge "a.example.com" "valid";
               Fixture.challenge "b.example.com" "expired"]
              ltac:(discriminate) ltac:(discriminate)
              ltac:(discriminate) ltac:(discriminate)) as [H1 H2].
  split.
  - apply H1. repeat constructor; intros [H|H]; discriminate H.
  - apply H2. apply Exists_cons_tl, Exists_cons_hd. by right.
Defined.

Lemma challengeSpecForAuthorization_spec_fields_example :
  let cs := Fixture.spec "example.com" in
  cmapi.ChallengeSpec.DNSName cs = "example.com"
  ∧ solverConfigurationForAuthorization Fixture.domainConfigs
      (Fixture.authz false) = inr (cmapi.ChallengeSpec.Config cs).
Proof.
  destruct (@challengeSpecForAuthorization_spec_fields Fixture.World
              (Fixture.client "pending" [] true true) Fixture.issuer
              (Fixture.order (Fixture.status "" "" None None))
              (Fixture.authz false) Fixture.st0
              (Fixture.spec "example.com") _ eq_refl)
    as (_ & Hname & _ & _ & Hcfg & _).
  split; [exact Hname | exact Hcfg].
Defined.


Lemma Sync_pending_nothing_to_create_example :
  Fixture.runSync
    (Fixture.controller true true (Fixture.client "pending" [] true true)
       [Fixture.challenge "a.example.com" "processing"])
    (MoreFixture.pendingOrder [Fixture.spec "a.example.com";
                               Fixture.spec "b.example.com"]) Fixture.st0
  = (None,
     {| world := 7%nat;
        calls := MoreFixture.lookups
                 ++ [ChallengesListCall "default" MoreFixture.selector] |}).
Proof.
  refine (proj1 (@Sync_pending_nothing_to_create Fixture.World Fixture.clock
                   Fixture.consts Fixture.predicates Fixture.validation
                   (Fixture.controller true true
                      (Fixture.client "pending" [] true true)
                      [Fixture.challenge "a.example.com" "processing"])
                   (MoreFixture.pendingOrder [Fixture.spec "a.example.com";
                                              Fixture.spec "b.example.com"])
                   Fixture.st0 Fixture.issuer 7%nat
                   (Fixture.client "pending" [] true true) 7%nat
                   MoreFixture.selector
                   [Fixture.challenge "a.example.com" "processing"] 7%nat
                   (or_introl eq_refl) ltac:(discriminate) ltac:(discriminate)
                   eq_refl ltac:(discriminate) eq_refl eq_refl eq_refl eq_refl
                   _ ltac:(discriminate) ltac:(discriminate)
                   ltac:(discriminate) ltac:(discriminate)) _ _).
  - intros s [= <-]. eexists. split; [by left | reflexivity].
  - apply Exists_cons_hd. by right.
  - repeat constructor. intros [H|H]; discriminate H.
Defined.

Lemma Sync_unrecognised_state_example :
  Fixture.runSync
    (Fixture.controller true true (Fixture.client "pending" [] true true) [])
    (Fixture.order
       (Fixture.status "https://acme.test/order/1" "revoked" None None))
    Fixture.st0
  = (Some (Errorf "unknown order state %q" [inl "revoked"]),
     {| world := 7%nat; calls := MoreFixture.lookups |}).
Proof.
  exact (@Sync_unrecognised_state Fixture.World Fixture.clock Fixture.consts
           Fixture.predicates Fixture.validation
           (Fixture.controller true true
              (Fixture.client "pending" [] true true) [])
           (Fixture.order
              (Fixture.status "https://acme.test/order/1" "revoked" None None))
           Fixture.st0 Fixture.issuer 7%nat
           (Fixture.client "pending" [] true true) 7%nat
           ltac:(discriminate) eq_refl ltac:(discriminate)
           ltac:(discriminate) ltac:(discriminate) ltac:(discriminate)
           eq_refl eq_refl).
Defined.


Lemma Sync_without_plan_creates_nothing_example :
  callsExtend notChallengeCreate Fixture.st0
    (Fixture.runSync
       (Fixture.controller true true (Fixture.client "pending" [] true true) [])
       (Fixture.order
          (Fixture.status "https://acme.test/order/1" "pending" None None))
       Fixture.st0).2.
Proof.
  exact (proj1 (@Sync_without_plan_creates_nothing Fixture.World Fixture.clock
                  Fixture.consts Fixture.predicates Fixture.validation
                  (Fixture.controller true true
                     (Fixture.client "pending" [] true true) [])
                  (Fixture.order
                     (Fixture.status "https://acme.test/order/1" "pending"
                                     None None))
                  Fixture.st0 ltac:(discriminate) eq_refl)).
Defined.
